(** * Threaded comments and entity-record status: a shallow embedding

    Two JavaScript modules are embedded here:

    - [packages/core-data/src/hooks/use-entity-record.js]: the hook
      [useEntityRecord], which reads the resolution flags of one entity
      record and derives [status] and [isMissing];
    - the edit component of the Comment Template block
      ([CommentTemplateEdit], [CommentsList], [CommentTemplateInnerBlocks],
      [CommentTemplatePreview]), which turns the flat list of comments of a
      post into a forest, keeps its first [perPage] roots and renders them
      recursively with one comment shown as live inner blocks and the
      others as previews.

    JavaScript objects are compared by identity ([===]); a comment object
    therefore carries a reference [ref] next to its fields.  The helper
    [convertToTree] lives in [./util], which is not among the sources: the
    component is embedded over an arbitrary [convertToTree], and the tree
    builder itself is modelled from the specification in a store of
    wrappers, one per identifier. *)

From stdpp Require Import gmap strings list fin_maps.

Local Open Scope Z_scope.
Set Warnings "-register-all".

(** ** JavaScript values *)

(** The values a block context entry such as ['comments/perPage'] can hold.
    Numbers are the integers and [NaN]; fractions are left out, [perPage]
    being a count of comments. *)
Inductive JSValue : Type :=
| JSUndefined
| JSNull
| JSBool (b : bool)
| JSNumber (n : Z)
| JSNaN
| JSString (s : string).

(** ToBoolean. *)
Definition truthy (v : JSValue) : bool :=
  match v with
  | JSUndefined | JSNull | JSNaN => false
  | JSBool b => b
  | JSNumber n => negb (n =? 0)
  | JSString s => negb (String.eqb s "")
  end.

(** [a || b]: the left operand when it is truthy, else the right one. *)
Definition js_or (a b : JSValue) : JSValue := if truthy a then a else b.

Inductive IntegerOrInfinity : Type :=
| Finite (z : Z)
| PlusInfinity
| MinusInfinity.

Section Slice.
(** The numeric reading of a string (StringToNumber followed by the
    truncation of ToIntegerOrInfinity) belongs to the language runtime;
    it is a parameter of the development. *)
Variable StringToIntegerOrInfinity : string → IntegerOrInfinity.

Definition ToIntegerOrInfinity (v : JSValue) : IntegerOrInfinity :=
  match v with
  | JSUndefined | JSNaN => Finite 0
  | JSNull => Finite 0
  | JSBool b => Finite (if b then 1 else 0)
  | JSNumber n => Finite n
  | JSString s => StringToIntegerOrInfinity s
  end.

(** The relative index of [Array.prototype.slice]: a negative index
    counts from the end, and the result is clamped to [0 .. len]. *)
Definition relativeIndex (len : Z) (i : IntegerOrInfinity) : Z :=
  match i with
  | MinusInfinity => 0
  | Finite z => if z <? 0 then Z.max (len + z) 0 else Z.min z len
  | PlusInfinity => len
  end.

(** [l.slice( start, end )]. *)
Definition slice {A : Type} (l : list A) (start end_ : JSValue) : list A :=
  let len := Z.of_nat (length l) in
  let k := relativeIndex len (ToIntegerOrInfinity start) in
  let final :=
    match end_ with
    | JSUndefined => len
    | _ => relativeIndex len (ToIntegerOrInfinity end_)
    end in
  let count := Z.max (final - k) 0 in
  take (Z.to_nat count) (drop (Z.to_nat k) l).
End Slice.

(** ** useEntityRecord *)

(** Modelled from the spec: the four status constants imported from
    [./constants], which is not among the sources. *)
Inductive Status : Type := IDLE | RESOLVING | SUCCESS | ERROR.

(** The status read off the three flags, case by case. *)
Definition status_by_cases (resolving resolved present : bool) : Status :=
  match resolving, resolved, present with
  | true, _, _ => RESOLVING
  | false, true, true => SUCCESS
  | false, true, false => ERROR
  | false, false, _ => IDLE
  end.

Section UseEntityRecord.
(** The entity record itself is opaque to the hook. *)
Variable EntityRecord : Type.

(** What [getEntityRecord( kind, name, recordId )] answers under
    [useQuerySelect]: the data, when there is one, and the two
    resolution flags. *)
Record QueryResult : Type := {
  data : option EntityRecord;
  isResolving : bool;
  hasResolved : bool
}.

(** The object returned by the hook. *)
Record EntityRecordResolution : Type := {
  res_status : Status;
  res_record : option EntityRecord;
  res_editedRecord : option EntityRecord;
  res_hasEdits : option bool;
  res_isMissing : bool;
  res_isResolving : bool;
  res_hasResolved : bool
}.

(** [recordResponse.hasResolved && ! recordResponse.data]. *)
Definition isMissing (recordResponse : QueryResult) : bool :=
  hasResolved recordResponse && negb (bool_decide (is_Some (data recordResponse))).

(** The [if]/[else] chain computing [status]. *)
Definition status (recordResponse : QueryResult) : Status :=
  if isResolving recordResponse then RESOLVING
  else if hasResolved recordResponse then
    if bool_decide (is_Some (data recordResponse)) then SUCCESS else ERROR
  else IDLE.

(** [editedRecord] and [hasEdits] are the [data] of two further
    selectors and pass through unchanged. *)
Definition useEntityRecord (recordResponse : QueryResult)
    (editedRecord : option EntityRecord) (hasEdits : option bool)
    : EntityRecordResolution :=
  {| res_status := status recordResponse;
     res_record := data recordResponse;
     res_editedRecord := editedRecord;
     res_hasEdits := hasEdits;
     res_isMissing := isMissing recordResponse;
     res_isResolving := isResolving recordResponse;
     res_hasResolved := hasResolved recordResponse |}.
End UseEntityRecord.

Arguments data {EntityRecord} _.
Arguments isResolving {EntityRecord} _.
Arguments hasResolved {EntityRecord} _.
Arguments res_status {EntityRecord} _.
Arguments res_record {EntityRecord} _.
Arguments res_editedRecord {EntityRecord} _.
Arguments res_hasEdits {EntityRecord} _.
Arguments res_isMissing {EntityRecord} _.
Arguments res_isResolving {EntityRecord} _.
Arguments res_hasResolved {EntityRecord} _.
Arguments isMissing {EntityRecord} _.
Arguments status {EntityRecord} _.
Arguments useEntityRecord {EntityRecord} _ _ _.

(** ** Comment objects *)

(** A node of the forest handed to the renderer: [ref] is the identity of
    the JavaScript object (what [===] compares), [commentId] and
    [children] are its fields. *)
Inductive comment : Type :=
  Comment { ref : Z; commentId : Z; children : list comment }.

(** [a === b] on comment objects. *)
Definition same_object (a b : comment) : bool := bool_decide (ref a = ref b).

(** A node followed by its descendants, in document order. *)
Fixpoint subtree_nodes (c : comment) : list comment :=
  c :: (children c ≫= subtree_nodes).

Definition forest_nodes (forest : list comment) : list comment :=
  forest ≫= subtree_nodes.

(** ** The tree builder *)

(** Modelled from the spec: the flat record handed to [convertToTree]
    (of [./util], absent from the sources): its identifier, the identifier
    of its parent (or a sentinel matching no record) and a payload
    irrelevant to the shape. *)
Record CommentRecord : Type := {
  id : Z;
  parentId : Z;
  payload : string
}.

(** Modelled from the spec: a node wrapper of the identifier index of
    [convertToTree] (absent from the sources): the record it wraps and the
    references of its children, wrappers being referred to by the
    identifier they are indexed under. *)
Record Wrapper : Type := {
  record : CommentRecord;
  childRefs : list Z
}.

(** Modelled from the spec: the result of [convertToTree] (absent from
    the sources): the root list and the store of wrappers it refers to. *)
Record Forest : Type := {
  roots : list Z;
  table : gmap Z Wrapper
}.

(** Modelled from the spec: step 1 of [buildTree] (the [convertToTree] of
    [./util], absent from the sources).  Every record is indexed by its
    identifier, one wrapper per identifier with no children yet; on equal
    identifiers the last record wins. *)
Definition index_records (records : list CommentRecord) : gmap Z Wrapper :=
  foldl (λ t r, <[id r := {| record := r; childRefs := [] |}]> t) ∅ records.

(** Modelled from the spec: one iteration of step 2 of [buildTree] (the
    [convertToTree] of [./util], absent from the sources).  When a wrapper
    exists for the parent identifier, the record's wrapper is appended to
    that wrapper's children, else to the root list; a record that names
    itself as parent counts as having no parent. *)
Definition attach (acc : Forest) (r : CommentRecord) : Forest :=
  match table acc !! parentId r with
  | Some p =>
      if bool_decide (parentId r = id r) then
        {| roots := roots acc ++ [id r]; table := table acc |}
      else
        {| roots := roots acc;
           table := <[parentId r :=
                       {| record := record p;
                          childRefs := childRefs p ++ [id r] |}]> (table acc) |}
  | None => {| roots := roots acc ++ [id r]; table := table acc |}
  end.

(** Modelled from the spec: [buildTree] (the [convertToTree] of [./util],
    absent from the sources): index every record, then attach the records
    in input order, and return the root list. *)
Definition buildTree (records : list CommentRecord) : Forest :=
  foldl attach {| roots := []; table := index_records records |} records.

(** Reading the store as nested comment objects.  A store may be cyclic
    (records naming each other as parent, or equal identifiers making a
    wrapper its own descendant), so the unfolding is bounded: [None] when
    [fuel] levels do not reach the leaves or a reference is dangling. *)
Fixpoint materialize (fuel : nat) (t : gmap Z Wrapper) (r : Z) : option comment :=
  match fuel with
  | O => None
  | S n =>
      w ← t !! r;
      cs ← mapM (materialize n t) (childRefs w);
      Some (Comment r (id (record w)) cs)
  end.

Definition forest_of (fuel : nat) (f : Forest) : option (list comment) :=
  mapM (materialize fuel (table f)) (roots f).

(** The parent link the builder follows for identifier [k]: the parent
    identifier of the record indexed under [k], unless that record names
    itself or names an identifier that is not indexed. *)
Definition parent_link (records : list CommentRecord) (k : Z) : option Z :=
  r ← list_find (λ r, id r = k) records;
  if bool_decide (parentId r.2 ≠ id r.2 ∧ parentId r.2 ∈ id <$> records)
  then Some (parentId r.2) else None.

(** Number of parent links between [k] and a root, when at most [fuel]. *)
Fixpoint depth (fuel : nat) (records : list CommentRecord) (k : Z) : option nat :=
  match fuel with
  | O => None
  | S n =>
      match parent_link records k with
      | None => Some O
      | Some p => S <$> depth n records p
      end
  end.

(** No chain of parent links runs into a cycle: from every record a root
    is reached in fewer steps than there are records. *)
Definition acyclic (records : list CommentRecord) : bool :=
  forallb (λ r, bool_decide (is_Some (depth (length records) records (id r)))) records.

(** The records the builder makes roots, and those it attaches under [k]. *)
Definition is_root (records : list CommentRecord) (r : CommentRecord) : bool :=
  bool_decide (parentId r = id r ∨ parentId r ∉ id <$> records).

Definition is_child_of (records : list CommentRecord) (k : Z) (r : CommentRecord) : bool :=
  bool_decide (parentId r = k ∧ parentId r ≠ id r ∧ k ∈ id <$> records).

(** The identifiers of the root records, and of the records attached
    under [k], in input order. *)
Definition root_ids (records : list CommentRecord) : list Z :=
  id <$> filter (λ r, is_root records r) records.

Definition children_of (records : list CommentRecord) (k : Z) : list Z :=
  id <$> filter (λ r, is_child_of records k r) records.

(** A node agrees with the input: it carries the identifier it is
    referred to by, some record has that identifier, and its children
    are, in input order, the records attached under it. *)
Definition faithful (records : list CommentRecord) (c : comment) : Prop :=
  commentId c = ref c
  ∧ ref c ∈ id <$> records
  ∧ ref <$> children c = children_of records (ref c).

(** The depth of [k] in an acyclic input (0 when the bound is hit). *)
Definition depth_of (records : list CommentRecord) (k : Z) : nat :=
  default 0%nat (depth (length records) records k).

(** The store of a forest holds a wrapper for exactly the identifiers of
    the input. *)
Definition indexed (records : list CommentRecord) (f : Forest) : Prop :=
  ∀ k, is_Some (table f !! k) ↔ k ∈ id <$> records.

(** ** The renderer *)

(** What an [<li>] shows for its comment: the live inner blocks
    ([children] of [useInnerBlocksProps]) or a
    [MemoizedCommentTemplatePreview] whose click and key-press handlers
    call [setActiveComment( comment )]. *)
Inductive LiBody : Type :=
| InnerBlocks
| Preview (c : comment).

(** One [<BlockContextProvider key value><li> body nested </li>]: the
    nested [<ol>] is there when the comment has children. *)
Inductive RenderedItem : Type :=
  Item (key : Z) (value : comment) (body : LiBody)
       (nested : option (list RenderedItem)).

(** [activeComment || firstComment] on objects or [undefined]. *)
Definition or_default (activeComment firstComment : option comment) : option comment :=
  match activeComment with
  | Some a => Some a
  | None => firstComment
  end.

(** [comment === x] where [x] may be [undefined]. *)
Definition is_same (c : comment) (x : option comment) : bool :=
  match x with
  | Some a => same_object c a
  | None => false
  end.

(** [CommentTemplateInnerBlocks]; the nested [CommentsList] is inlined as
    the map over the children, whose [firstComment] is the head of the
    children list. *)
Fixpoint CommentTemplateInnerBlocks (activeComment firstComment : option comment)
    (c : comment) : RenderedItem :=
  match c with
  | Comment _ _ cs =>
      Item (commentId c) c
        (if is_same c (or_default activeComment firstComment)
         then InnerBlocks else Preview c)
        (if bool_decide (0 < length cs)%nat
         then Some (CommentTemplateInnerBlocks activeComment (head cs) <$> cs)
         else None)
  end.

(** [CommentsList]: every comment of the list is rendered with
    [firstComment = comments[ 0 ]]. *)
Definition CommentsList (comments : list comment) (activeComment : option comment)
    : list RenderedItem :=
  CommentTemplateInnerBlocks activeComment (head comments) <$> comments.

(** [handleOnClick] of the preview of [c]: [setActiveComment( comment )]. *)
Definition handleOnClick (c : comment) (activeComment : option comment)
    : option comment := Some c.

(** The rendered nodes with what each shows, in document order. *)
Fixpoint item_bodies (it : RenderedItem) : list (comment * LiBody) :=
  match it with
  | Item _ v b n =>
      (v, b) :: match n with
                | Some l => l ≫= item_bodies
                | None => []
                end
  end.

Definition rendered_bodies (ol : list RenderedItem) : list (comment * LiBody) :=
  ol ≫= item_bodies.

Definition is_editable (b : LiBody) : bool :=
  match b with InnerBlocks => true | Preview _ => false end.

(** The comments rendered in editable form. *)
Definition active_nodes (ol : list RenderedItem) : list comment :=
  (filter (λ p, is_editable p.2 = true) (rendered_bodies ol)).*1.

(** ** CommentTemplateEdit *)

Inductive Output : Type :=
| Spinner
| NoResults
| CommentsListOutput (ol : list RenderedItem).

Section CommentTemplate.
Variable StringToIntegerOrInfinity : string → IntegerOrInfinity.
(** [convertToTree] of [./util], not among the sources. *)
Variable convertToTree : option (list CommentRecord) → list comment.

(** [perPage = perPage || 50]. *)
Definition effectivePerPage (perPage : JSValue) : JSValue :=
  js_or perPage (JSNumber 50).

(** [convertToTree( rawComments ).slice( 0, perPage )]. *)
Definition cappedComments (rawComments : option (list CommentRecord))
    (perPage : JSValue) : list comment :=
  slice StringToIntegerOrInfinity (convertToTree rawComments)
    (JSNumber 0) (effectivePerPage perPage).

Definition CommentTemplateEdit (rawComments : option (list CommentRecord))
    (perPage : JSValue) (activeComment : option comment) : Output :=
  let comments := cappedComments rawComments perPage in
  match rawComments with
  | None => Spinner
  | Some _ =>
      if bool_decide (length comments = 0%nat) then NoResults
      else CommentsListOutput (CommentsList comments activeComment)
  end.
End CommentTemplate.

(** The root items of what the component renders: none for the spinner
    and for the empty result. *)
Definition output_items (o : Output) : list RenderedItem :=
  match o with
  | CommentsListOutput ol => ol
  | Spinner | NoResults => []
  end.

(** ** Reading the rendered tree *)

Definition item_key (it : RenderedItem) : Z :=
  match it with Item k _ _ _ => k end.

Definition item_value (it : RenderedItem) : comment :=
  match it with Item _ v _ _ => v end.

Definition item_nested (it : RenderedItem) : option (list RenderedItem) :=
  match it with Item _ _ _ n => n end.

(** An item followed by the items nested below it, in document order. *)
Fixpoint item_subitems (it : RenderedItem) : list RenderedItem :=
  match it with
  | Item _ _ _ n =>
      it :: match n with
            | Some l => l ≫= item_subitems
            | None => []
            end
  end.

(** Every node of a subtree paired with the head of the list it sits
    in, which is the [firstComment] that [CommentsList] hands to it. *)
Fixpoint with_first (firstComment : option comment) (c : comment)
    : list (comment * option comment) :=
  (c, firstComment) :: (children c ≫= with_first (head (children c))).

Definition forest_with_first (forest : list comment)
    : list (comment * option comment) :=
  forest ≫= with_first (head forest).

(** What the [<li>] of a node shows under the selection [activeComment]
    when [firstComment] is the head of its list. *)
Definition shown (activeComment : option comment)
    (p : comment * option comment) : comment * LiBody :=
  (p.1, if is_same p.1 (or_default activeComment p.2)
        then InnerBlocks else Preview p.1).

(** The selection after the previews of [clicks] were activated in turn. *)
Definition activate (activeComment : option comment) (clicks : list comment)
    : option comment :=
  foldl (λ s c, handleOnClick c s) activeComment clicks.

(** * Properties *)

(** ** useEntityRecord *)

Section UseEntityRecordFacts.
Context {EntityRecord : Type}.
Implicit Types (r : QueryResult EntityRecord).

Lemma isMissing_spec r :
  isMissing r = true ↔ hasResolved r = true ∧ data r = None.
Proof.
  unfold isMissing. rewrite andb_true_iff, negb_true_iff, bool_decide_eq_false.
  rewrite <- eq_None_not_Some. reflexivity.
Qed.

(** C8: the status returned by [useEntityRecord] is a function of the
    three flags alone: RESOLVING when [isResolving] holds, otherwise
    SUCCESS when [hasResolved] holds and the data is present, otherwise
    ERROR when [hasResolved] holds and the data is absent, otherwise
    IDLE. *)
Theorem useEntityRecord_status r editedRecord hasEdits :
  res_status (useEntityRecord r editedRecord hasEdits)
  = status_by_cases (isResolving r) (hasResolved r)
      (bool_decide (is_Some (data r))).
Proof.
  simpl. unfold status, status_by_cases.
  destruct (isResolving r), (hasResolved r),
    (bool_decide (is_Some (data r))); reflexivity.
Qed.

(** C9: [isMissing] holds exactly when [hasResolved] holds and the data
    is absent; and when [isMissing] holds while [isResolving] does not,
    the status is ERROR. *)
Theorem useEntityRecord_isMissing r editedRecord hasEdits :
  let res := useEntityRecord r editedRecord hasEdits in
  (res_isMissing res = true ↔ hasResolved r = true ∧ data r = None)
  ∧ (res_isMissing res = true → isResolving r = false → res_status res = ERROR).
Proof.
  simpl. split; [apply isMissing_spec|].
  intros [Hres Hdata]%isMissing_spec Hnot.
  unfold status. rewrite Hnot, Hres, Hdata.
  rewrite bool_decide_eq_false_2; [reflexivity|].
  intros [? ?]; discriminate.
Qed.
End UseEntityRecordFacts.

Lemma useEntityRecord_isMissing_witness :
  res_status (useEntityRecord
                {| data := @None unit; isResolving := false; hasResolved := true |}
                None None) = ERROR.
Proof.
  apply (proj2 (useEntityRecord_isMissing
                  {| data := @None unit; isResolving := false; hasResolved := true |}
                  None None)); reflexivity.
Defined.

(** ** The bounded slice *)

Section SliceFacts.
Variable StringToIntegerOrInfinity : string → IntegerOrInfinity.
Context {A : Type}.
Implicit Types (l : list A).

Lemma slice_from_zero l (n : Z) :
  0 ≤ n →
  slice StringToIntegerOrInfinity l (JSNumber 0) (JSNumber n) = take (Z.to_nat n) l.
Proof.
  intros Hn. unfold slice; simpl.
  replace (0 <? 0) with false by reflexivity.
  replace (n <? 0) with false by (symmetry; apply Z.ltb_ge; exact Hn).
  rewrite (Z.min_l 0) by lia. simpl. rewrite drop_0.
  destruct (Z.le_gt_cases n (Z.of_nat (length l))) as [Hle|Hgt].
  - rewrite Z.min_l by lia. f_equal. lia.
  - rewrite Z.min_r by lia.
    rewrite !take_ge; [reflexivity| lia | lia].
Qed.
End SliceFacts.

(** ** CommentTemplateEdit: the cap on root comments *)

Section CommentTemplateFacts.
Variable StringToIntegerOrInfinity : string → IntegerOrInfinity.
Variable convertToTree : option (list CommentRecord) → list comment.

Local Abbreviation capped := (cappedComments StringToIntegerOrInfinity convertToTree).
Local Abbreviation edit := (CommentTemplateEdit StringToIntegerOrInfinity convertToTree).

Lemma CommentsList_length comments activeComment :
  length (CommentsList comments activeComment) = length comments.
Proof. unfold CommentsList. apply length_fmap. Qed.

Lemma capped_falsy rawComments perPage :
  truthy perPage = false →
  capped rawComments perPage = take 50 (convertToTree rawComments).
Proof.
  intros Hf. unfold cappedComments, effectivePerPage, js_or. rewrite Hf.
  rewrite slice_from_zero by lia. reflexivity.
Qed.

Lemma capped_positive rawComments (n : Z) :
  0 < n →
  capped rawComments (JSNumber n) = take (Z.to_nat n) (convertToTree rawComments).
Proof.
  intros Hn. unfold cappedComments, effectivePerPage, js_or. simpl.
  replace (n =? 0) with false by (symmetry; apply Z.eqb_neq; lia).
  simpl. apply slice_from_zero. lia.
Qed.

Lemma edit_unfold rawComments perPage activeComment :
  edit rawComments perPage activeComment
  = match rawComments with
    | None => Spinner
    | Some _ =>
        if bool_decide (length (capped rawComments perPage) = 0%nat)
        then NoResults
        else CommentsListOutput
               (CommentsList (capped rawComments perPage) activeComment)
    end.
Proof. reflexivity. Qed.

Lemma output_items_length rawComments perPage activeComment :
  (length (output_items (edit rawComments perPage activeComment))
   ≤ length (capped rawComments perPage))%nat.
Proof.
  rewrite edit_unfold. destruct rawComments; simpl; [|lia].
  case_bool_decide; simpl; [lia|]. rewrite CommentsList_length. lia.
Qed.
End CommentTemplateFacts.

(** C3: for a limit [n >= 0], [forest.slice( 0, n )] has
    [min( n, forest.length )] roots, they are the first roots of [forest]
    in order, and each is the very node of [forest] at the same position,
    children included.  In the component the limit is [perPage] after
    defaulting, so for a positive [perPage] the capped forest is that
    prefix of [convertToTree( rawComments )]. *)
Theorem cap_keeps_first_roots (S2I : string → IntegerOrInfinity)
    (forest : list comment) (n : Z) :
  0 ≤ n →
  let capped := slice S2I forest (JSNumber 0) (JSNumber n) in
  Z.of_nat (length capped) = Z.min n (Z.of_nat (length forest))
  ∧ capped = take (Z.to_nat n) forest
  ∧ (∀ (i : nat) c, capped !! i = Some c → forest !! i = Some c)
  ∧ (∀ (i : nat), Z.of_nat i < n → capped !! i = forest !! i)
  ∧ (∀ convertToTree rawComments, 0 < n →
       cappedComments S2I convertToTree rawComments (JSNumber n)
       = take (Z.to_nat n) (convertToTree rawComments)).
Proof.
  intros Hn capped. subst capped. rewrite slice_from_zero by exact Hn.
  split; [rewrite length_take; lia|].
  split; [reflexivity|].
  split; [intros i c [H _]%lookup_take_Some; exact H|].
  split; [intros i Hi; apply lookup_take_lt; lia|].
  intros convertToTree rawComments Hpos. apply capped_positive. exact Hpos.
Qed.

Lemma cap_keeps_first_roots_witness :
  slice (λ _, Finite 0)
    [Comment 1 1 [Comment 2 2 []]; Comment 3 3 []; Comment 4 4 []]
    (JSNumber 0) (JSNumber 2)
  = [Comment 1 1 [Comment 2 2 []]; Comment 3 3 []].
Proof.
  refine (proj1 (proj2 (cap_keeps_first_roots (λ _, Finite 0)
    [Comment 1 1 [Comment 2 2 []]; Comment 3 3 []; Comment 4 4 []] 2 _))).
  lia.
Defined.

(** C7: when ['comments/perPage'] is absent ([undefined]), the comments
    kept for rendering are the first 50 roots of the forest: at most 50
    root items are ever rendered. *)
Theorem absent_perPage_caps_at_50 (S2I : string → IntegerOrInfinity)
    (convertToTree : option (list CommentRecord) → list comment)
    (rawComments : option (list CommentRecord)) (activeComment : option comment) :
  effectivePerPage JSUndefined = JSNumber 50
  ∧ cappedComments S2I convertToTree rawComments JSUndefined
    = take 50 (convertToTree rawComments)
  ∧ length (cappedComments S2I convertToTree rawComments JSUndefined)
    = Nat.min 50 (length (convertToTree rawComments))
  ∧ (length (output_items
       (CommentTemplateEdit S2I convertToTree rawComments JSUndefined activeComment))
     ≤ 50)%nat.
Proof.
  assert (Hc : cappedComments S2I convertToTree rawComments JSUndefined
               = take 50 (convertToTree rawComments))
    by (apply capped_falsy; reflexivity).
  split; [reflexivity|]. split; [exact Hc|].
  split; [rewrite Hc; apply length_take|].
  etrans; [apply output_items_length|].
  rewrite Hc, length_take. lia.
Qed.

(** C10: a falsy ['comments/perPage'] (0, [null], the empty string, [NaN],
    [false]) is treated as an absent one: the first 50 roots are kept and
    the component renders what it renders without the parameter; with
    [perPage = 0] and a non-empty forest the rendering is the list of those
    roots, not the empty result. *)
Theorem falsy_perPage_is_absent (S2I : string → IntegerOrInfinity)
    (convertToTree : option (list CommentRecord) → list comment)
    (rawComments : option (list CommentRecord)) (activeComment : option comment)
    (perPage : JSValue) :
  truthy perPage = false →
  cappedComments S2I convertToTree rawComments perPage
  = take 50 (convertToTree rawComments)
  ∧ CommentTemplateEdit S2I convertToTree rawComments perPage activeComment
    = CommentTemplateEdit S2I convertToTree rawComments JSUndefined activeComment
  ∧ (is_Some rawComments → convertToTree rawComments ≠ [] →
     CommentTemplateEdit S2I convertToTree rawComments perPage activeComment
     = CommentsListOutput
         (CommentsList (take 50 (convertToTree rawComments)) activeComment)
     ∧ CommentsList (take 50 (convertToTree rawComments)) activeComment ≠ []).
Proof.
  intros Hf.
  pose proof (capped_falsy S2I convertToTree rawComments perPage Hf) as Hc.
  pose proof (capped_falsy S2I convertToTree rawComments JSUndefined eq_refl) as Hu.
  split; [exact Hc|].
  split; [rewrite !edit_unfold, Hc, Hu; reflexivity|].
  intros [rs ->] Hne. rewrite edit_unfold, Hc.
  destruct (convertToTree (Some rs)) as [|c forest] eqn:E; [done|].
  split; [|discriminate]. reflexivity.
Qed.

Lemma falsy_perPage_is_absent_witness :
  CommentTemplateEdit (λ _, Finite 0) (λ _, [Comment 1 1 []]) (Some []) (JSNumber 0) None
  = CommentsListOutput (CommentsList [Comment 1 1 []] None)
  ∧ CommentTemplateEdit (λ _, Finite 0) (λ _, [Comment 1 1 []]) (Some []) JSNull None
    = CommentTemplateEdit (λ _, Finite 0) (λ _, [Comment 1 1 []]) (Some []) JSUndefined None
  ∧ cappedComments (λ _, Finite 0) (λ _, [Comment 1 1 []]) (Some []) (JSString "")
    = [Comment 1 1 []].
Proof.
  split; [|split].
  - refine (proj1 (proj2 (proj2 (falsy_perPage_is_absent (λ _, Finite 0)
      (λ _, [Comment 1 1 []]) (Some []) None (JSNumber 0) _)) _ _)).
    + reflexivity.
    + eexists; reflexivity.
    + discriminate.
  - refine (proj1 (proj2 (falsy_perPage_is_absent (λ _, Finite 0)
      (λ _, [Comment 1 1 []]) (Some []) None JSNull _))).
    reflexivity.
  - refine (proj1 (falsy_perPage_is_absent (λ _, Finite 0)
      (λ _, [Comment 1 1 []]) (Some []) None (JSString "") _)).
    reflexivity.
Defined.

(** ** The renderer: which comment shows its inner blocks *)

(** Induction on a comment, with the property known of all its children. *)
Lemma comment_nested_ind (P : comment → Prop) :
  (∀ r i cs, Forall P cs → P (Comment r i cs)) → ∀ c, P c.
Proof.
  intros H. fix IH 1. intros [r i cs]. apply H.
  induction cs as [|c cs IHcs]; constructor; [apply IH | exact IHcs].
Qed.

Lemma CommentTemplateInnerBlocks_unfold activeComment firstComment c :
  CommentTemplateInnerBlocks activeComment firstComment c
  = Item (commentId c) c
      (if is_same c (or_default activeComment firstComment)
       then InnerBlocks else Preview c)
      (if bool_decide (0 < length (children c))%nat
       then Some (CommentsList (children c) activeComment)
       else None).
Proof. destruct c; reflexivity. Qed.

Lemma item_bodies_unfold activeComment firstComment c :
  item_bodies (CommentTemplateInnerBlocks activeComment firstComment c)
  = (c, if is_same c (or_default activeComment firstComment)
        then InnerBlocks else Preview c)
    :: rendered_bodies (CommentsList (children c) activeComment).
Proof.
  rewrite CommentTemplateInnerBlocks_unfold. simpl. f_equal.
  case_bool_decide as Hlen; [reflexivity|].
  destruct (children c); [reflexivity | simpl in Hlen; lia].
Qed.

Lemma rendered_bodies_cons activeComment firstComment c cs :
  rendered_bodies (CommentTemplateInnerBlocks activeComment firstComment <$> c :: cs)
  = item_bodies (CommentTemplateInnerBlocks activeComment firstComment c)
    ++ rendered_bodies (CommentTemplateInnerBlocks activeComment firstComment <$> cs).
Proof. reflexivity. Qed.

(** With a selection, what a node shows does not depend on the list it
    sits in: exactly the nodes identical to the selected object show the
    inner blocks. *)
Lemma item_bodies_selected a firstComment c :
  item_bodies (CommentTemplateInnerBlocks (Some a) firstComment c)
  = (λ c, (c, if same_object c a then InnerBlocks else Preview c))
    <$> subtree_nodes c.
Proof.
  revert firstComment. induction c as [r i cs IH] using comment_nested_ind.
  intros firstComment. rewrite item_bodies_unfold. simpl. f_equal.
  unfold CommentsList. generalize (head cs) as fc. intros fc.
  induction IH as [|c cs Hc _ IHcs]; [reflexivity|].
  rewrite rendered_bodies_cons, IHcs, Hc, bind_cons, fmap_app. reflexivity.
Qed.

Lemma rendered_bodies_selected forest a :
  rendered_bodies (CommentsList forest (Some a))
  = (λ c, (c, if same_object c a then InnerBlocks else Preview c))
    <$> forest_nodes forest.
Proof.
  unfold CommentsList, forest_nodes. generalize (head forest) as fc. intros fc.
  induction forest as [|c cs IHcs]; [reflexivity|].
  rewrite rendered_bodies_cons, IHcs, item_bodies_selected, bind_cons, fmap_app.
  reflexivity.
Qed.

Lemma active_nodes_selected forest a :
  active_nodes (CommentsList forest (Some a))
  = filter (λ c, ref c = ref a) (forest_nodes forest).
Proof.
  unfold active_nodes. rewrite rendered_bodies_selected.
  induction (forest_nodes forest) as [|c l IHl]; [reflexivity|].
  rewrite fmap_cons, !filter_cons.
  destruct (same_object c a) eqn:Hs; unfold same_object in Hs; simpl.
  - apply bool_decide_eq_true in Hs.
    repeat case_decide; try done. simpl. f_equal. exact IHl.
  - apply bool_decide_eq_false in Hs.
    repeat case_decide; try done.
Qed.

Lemma filter_none {A} (P : A → Prop) `{!∀ x, Decision (P x)} (l : list A) :
  (∀ x, x ∈ l → ¬ P x) → filter P l = [].
Proof.
  induction l as [|x l IHl]; intros Hl; [reflexivity|].
  rewrite filter_cons_False by (apply Hl; left).
  apply IHl. intros y Hy. apply Hl. right. exact Hy.
Qed.

(** In a list without two nodes of the same identity, the nodes identical
    to a member are that member alone. *)
Lemma filter_same_ref (l : list comment) a :
  NoDup (ref <$> l) → a ∈ l → filter (λ c, ref c = ref a) l = [a].
Proof.
  induction l as [|c l IHl]; intros Hnd Hin; [inversion Hin|].
  rewrite fmap_cons in Hnd. apply NoDup_cons in Hnd as [Hc Hnd].
  apply elem_of_cons in Hin as [->|Hin].
  - rewrite filter_cons_True by reflexivity. f_equal.
    apply filter_none. intros x Hx Heq.
    apply Hc. rewrite <- Heq. apply list_elem_of_fmap_2. exact Hx.
  - rewrite filter_cons_False; [apply IHl; assumption|].
    intros Heq. apply Hc. rewrite Heq. apply list_elem_of_fmap_2. exact Hin.
Qed.

Lemma same_ref_same_node (l : list comment) a c :
  NoDup (ref <$> l) → a ∈ l → c ∈ l → ref c = ref a → c = a.
Proof.
  intros Hnd Ha Hc Heq.
  assert (Hf : c ∈ filter (λ c, ref c = ref a) l)
    by (apply list_elem_of_filter; split; assumption).
  rewrite (filter_same_ref l a Hnd Ha) in Hf.
  apply list_elem_of_singleton in Hf. exact Hf.
Qed.

Lemma shows_preview_selected forest a c :
  NoDup (ref <$> forest_nodes forest) →
  a ∈ forest_nodes forest → c ∈ forest_nodes forest → c ≠ a →
  (c, Preview c) ∈ rendered_bodies (CommentsList forest (Some a)).
Proof.
  intros Hnd Ha Hc Hne. rewrite rendered_bodies_selected.
  apply (list_elem_of_fmap_2' _ _ c); [exact Hc|].
  unfold same_object. rewrite bool_decide_eq_false_2; [reflexivity|].
  intros Heq. apply Hne. exact (same_ref_same_node _ a c Hnd Ha Hc Heq).
Qed.

Lemma rendered_nodes_selected forest a :
  (rendered_bodies (CommentsList forest (Some a))).*1 = forest_nodes forest.
Proof.
  rewrite rendered_bodies_selected, <- list_fmap_compose.
  apply list_fmap_id.
Qed.

(** C1, amended: in a forest of pairwise distinct objects, when the
    selection holds a node [a] of the forest, every node is rendered once,
    [a] alone shows the inner blocks and every other node shows its
    preview; after the activation handler of a node [b] of the forest has
    run, [b] alone shows the inner blocks, [a] (when it is not [b]) shows
    its preview and every other node still shows its preview. *)
Theorem selected_node_is_the_only_active (forest : list comment) (a b : comment) :
  NoDup (ref <$> forest_nodes forest) →
  a ∈ forest_nodes forest →
  b ∈ forest_nodes forest →
  let before := CommentsList forest (Some a) in
  let after := CommentsList forest (handleOnClick b (Some a)) in
  (rendered_bodies before).*1 = forest_nodes forest
  ∧ (rendered_bodies after).*1 = forest_nodes forest
  ∧ active_nodes before = [a]
  ∧ (∀ c, c ∈ forest_nodes forest → c ≠ a →
       (c, Preview c) ∈ rendered_bodies before)
  ∧ active_nodes after = [b]
  ∧ (a ≠ b → (a, Preview a) ∈ rendered_bodies after)
  ∧ (∀ c, c ∈ forest_nodes forest → c ≠ a → c ≠ b →
       (c, Preview c) ∈ rendered_bodies before
       ∧ (c, Preview c) ∈ rendered_bodies after).
Proof.
  intros Hnd Ha Hb before after. subst before after. unfold handleOnClick.
  split; [apply rendered_nodes_selected|].
  split; [apply rendered_nodes_selected|].
  split; [rewrite active_nodes_selected; apply filter_same_ref; assumption|].
  split; [intros c Hc Hne; apply shows_preview_selected; assumption|].
  split; [rewrite active_nodes_selected; apply filter_same_ref; assumption|].
  split; [intros Hne; apply shows_preview_selected; assumption|].
  intros c Hc Hca Hcb. split; apply shows_preview_selected; assumption.
Qed.

Lemma selected_node_is_the_only_active_witness :
  active_nodes (CommentsList [Comment 1 1 [Comment 2 2 []]; Comment 3 3 []]
                  (Some (Comment 1 1 [Comment 2 2 []])))
  = [Comment 1 1 [Comment 2 2 []]]
  ∧ active_nodes (CommentsList [Comment 1 1 [Comment 2 2 []]; Comment 3 3 []]
                    (handleOnClick (Comment 2 2 [])
                       (Some (Comment 1 1 [Comment 2 2 []]))))
    = [Comment 2 2 []].
Proof.
  assert (Hnd : NoDup (ref <$> forest_nodes
                         [Comment 1 1 [Comment 2 2 []]; Comment 3 3 []])).
  { compute_done. }
  assert (Ha : Comment 1 1 [Comment 2 2 []]
               ∈ forest_nodes [Comment 1 1 [Comment 2 2 []]; Comment 3 3 []]).
  { vm_compute. left. }
  assert (Hb : Comment 2 2 []
               ∈ forest_nodes [Comment 1 1 [Comment 2 2 []]; Comment 3 3 []]).
  { vm_compute. right; left. }
  pose proof (selected_node_is_the_only_active _ _ _ Hnd Ha Hb)
    as (_ & _ & H1 & _ & H2 & _).
  split; [exact H1 | exact H2].
Defined.

(** C1, as stated, fails: with no selection the first child of a nested
    list shows the inner blocks next to the first root (two active nodes);
    with a selection that is not a node of the forest no node does; and
    a selected object listed twice shows them twice. *)
Lemma single_active_counterexample :
  active_nodes (CommentsList [Comment 1 1 [Comment 2 2 []]] None)
  = [Comment 1 1 [Comment 2 2 []]; Comment 2 2 []]
  ∧ active_nodes (CommentsList [Comment 1 1 [Comment 2 2 []]]
                    (Some (Comment 9 9 []))) = []
  ∧ active_nodes (CommentsList [Comment 3 3 []; Comment 3 3 []]
                    (Some (Comment 3 3 []))) = [Comment 3 3 []; Comment 3 3 []].
Proof. split; [|split]; reflexivity. Qed.

(** Without a selection every list renders its own head as the active
    comment: [CommentsList] passes [comments[ 0 ]] of the list at hand as
    [firstComment], also for a nested list. *)
Lemma first_child_active_without_selection firstComment c0 c c1 cs :
  c ∈ subtree_nodes c0 → children c = c1 :: cs →
  (c1, InnerBlocks)
  ∈ item_bodies (CommentTemplateInnerBlocks None firstComment c0).
Proof.
  revert firstComment. induction c0 as [r i cs0 IH] using comment_nested_ind.
  intros firstComment Hc Hch. rewrite item_bodies_unfold.
  simpl in Hc. apply elem_of_cons in Hc as [->|Hc].
  - right. simpl in *. subst cs0. unfold CommentsList.
    rewrite rendered_bodies_cons, item_bodies_unfold.
    apply elem_of_app; left. simpl. unfold same_object.
    rewrite bool_decide_eq_true_2 by reflexivity. left.
  - right. simpl. apply list_elem_of_bind in Hc as (c' & Hc & Hc').
    unfold CommentsList, rendered_bodies. apply list_elem_of_bind.
    exists (CommentTemplateInnerBlocks None (head cs0) c'). split.
    + rewrite Forall_forall in IH. apply IH; assumption.
    + apply list_elem_of_fmap_2. exact Hc'.
Qed.

(** C2 at the forest of one root with one child, no selection made: the
    root and its child both show the inner blocks. *)
Theorem unset_selection_activates_nested_first :
  active_nodes (CommentsList [Comment 1 1 [Comment 2 2 []]] None)
  = [Comment 1 1 [Comment 2 2 []]; Comment 2 2 []]
  ∧ (Comment 2 2 [], InnerBlocks)
    ∈ rendered_bodies (CommentsList [Comment 1 1 [Comment 2 2 []]] None).
Proof.
  split; [reflexivity|].
  unfold rendered_bodies, CommentsList. simpl head.
  rewrite fmap_cons, bind_cons. apply elem_of_app; left.
  apply (first_child_active_without_selection _ _ (Comment 1 1 [Comment 2 2 []])
           _ []); [left | reflexivity].
Qed.

(** ** The tree builder: the index and the attachment pass *)

Lemma index_records_snoc records r :
  index_records (records ++ [r])
  = <[id r := {| record := r; childRefs := [] |}]> (index_records records).
Proof. unfold index_records. rewrite foldl_snoc. reflexivity. Qed.

(** A wrapper is indexed under [k] exactly when a record has identifier
    [k]; it wraps such a record and has no children yet. *)
Lemma index_records_lookup records k w :
  index_records records !! k = Some w →
  record w ∈ records ∧ id (record w) = k ∧ childRefs w = [].
Proof.
  revert w. induction records as [|r records IH] using rev_ind; intros w.
  - unfold index_records; simpl. rewrite lookup_empty. discriminate.
  - rewrite index_records_snoc, lookup_insert. case_decide as Hk.
    + intros [= <-]. simpl. split; [|auto]. apply elem_of_app; right; left.
    + intros Hw. destruct (IH _ Hw) as (? & ? & ?).
      split; [|auto]. apply elem_of_app; left; assumption.
Qed.

Lemma index_records_dom records k :
  is_Some (index_records records !! k) ↔ k ∈ id <$> records.
Proof.
  induction records as [|r records IH] using rev_ind.
  - unfold index_records; simpl. rewrite lookup_empty.
    split; [intros [? ?]; discriminate | inversion 1].
  - rewrite index_records_snoc, fmap_app, elem_of_app, <- IH.
    rewrite lookup_insert_is_Some. simpl. rewrite list_elem_of_singleton.
    destruct (decide (id r = k)) as [Hk|Hk]; split.
    + intros _. right. symmetry. exact Hk.
    + intros _. left. exact Hk.
    + intros [Hk'|[_ H]]; [contradiction | left; exact H].
    + intros [H|Hk']; [right; split; assumption | congruence].
Qed.

Section Attach.
(** The whole input, against which roots and children are told apart. *)
Variable records : list CommentRecord.

Local Abbreviation indexed := (indexed records).

Lemma attach_root f r :
  indexed f → is_root records r = true →
  attach f r = {| roots := roots f ++ [id r]; table := table f |}.
Proof.
  intros Hf Hr. apply bool_decide_eq_true in Hr. unfold attach.
  destruct (table f !! parentId r) as [p|] eqn:Hp; [|reflexivity].
  case_bool_decide as Hself; [reflexivity|].
  destruct Hr as [Hr|Hr]; [contradiction|].
  exfalso. apply Hr, Hf. rewrite Hp. eexists; reflexivity.
Qed.

Lemma is_root_false r :
  is_root records r = false →
  parentId r ≠ id r ∧ parentId r ∈ id <$> records.
Proof.
  intros Hr. apply bool_decide_eq_false in Hr. split.
  - intros Hself. apply Hr. left. exact Hself.
  - destruct (decide (parentId r ∈ id <$> records)) as [Hin|Hin]; [exact Hin|].
    exfalso. apply Hr. right. exact Hin.
Qed.

Lemma attach_child f r :
  indexed f → is_root records r = false →
  ∃ p, table f !! parentId r = Some p
       ∧ attach f r
         = {| roots := roots f;
              table := <[parentId r :=
                          {| record := record p;
                             childRefs := childRefs p ++ [id r] |}]> (table f) |}.
Proof.
  intros Hf Hr. apply is_root_false in Hr as [Hself Hin].
  assert (Hp : is_Some (table f !! parentId r)) by (apply Hf; exact Hin).
  destruct Hp as [p Hp]. exists p. split; [exact Hp|].
  unfold attach. rewrite Hp. rewrite bool_decide_eq_false_2 by exact Hself.
  reflexivity.
Qed.

Lemma attach_indexed f r : indexed f → indexed (attach f r).
Proof.
  intros Hf k. destruct (is_root records r) eqn:Hr.
  - rewrite (attach_root f r Hf Hr). simpl. apply Hf.
  - destruct (attach_child f r Hf Hr) as (p & Hp & ->). simpl.
    rewrite lookup_insert_is_Some, <- (Hf k).
    destruct (decide (parentId r = k)) as [<-|Hk].
    + rewrite Hp. split; intros _; [eexists; reflexivity | left; reflexivity].
    + split; [intros [?|[_ ?]]; [contradiction|assumption]|].
      intros ?; right; split; assumption.
Qed.

(** The state after a run of the attachment pass over [pre]: the roots
    of [pre] are appended to the root list in order, and each wrapper has
    received, in order, the records of [pre] attached under it. *)
Lemma foldl_attach pre f :
  indexed f →
  indexed (foldl attach f pre)
  ∧ roots (foldl attach f pre)
    = roots f ++ (id <$> filter (λ r, is_root records r) pre)
  ∧ ∀ k w, table f !! k = Some w →
      table (foldl attach f pre) !! k
      = Some {| record := record w;
                childRefs := childRefs w
                  ++ (id <$> filter (λ r, is_child_of records k r) pre) |}.
Proof.
  revert f. induction pre as [|r pre IH]; intros f Hf.
  - simpl. split; [exact Hf|]. split; [rewrite app_nil_r; reflexivity|].
    intros k w Hw. rewrite app_nil_r. destruct w; exact Hw.
  - simpl. destruct (IH (attach f r) (attach_indexed f r Hf)) as (Hi & Hr & Ht).
    split; [exact Hi|]. rewrite Hr. clear Hr Hi IH.
    destruct (is_root records r) eqn:Hroot.
    + rewrite (attach_root f r Hf Hroot) in *. simpl in *.
      rewrite filter_cons_True by (rewrite Hroot; exact I).
      split; [rewrite <- app_assoc; reflexivity|].
      intros k w Hw. rewrite (Ht k w Hw).
      rewrite filter_cons_False; [reflexivity|].
      intros Hc. apply bool_decide_unpack in Hc as (Hk & Hself & Hin).
      apply bool_decide_eq_true in Hroot. destruct Hroot; [contradiction|].
      subst k. contradiction.
    + destruct (attach_child f r Hf Hroot) as (p & Hp & Hatt).
      rewrite Hatt in *. simpl in *. clear Hatt.
      rewrite filter_cons_False by (rewrite Hroot; intros H; exact H).
      split; [reflexivity|].
      intros k w Hw. apply is_root_false in Hroot as [Hself Hin].
      destruct (decide (parentId r = k)) as [Hk|Hk].
      * subst k. rewrite Hp in Hw. injection Hw as <-.
        rewrite (Ht (parentId r) _ (lookup_insert_eq _ _ _)). simpl.
        rewrite filter_cons_True.
        -- rewrite <- app_assoc. reflexivity.
        -- apply bool_decide_pack. split; [reflexivity|]. split; assumption.
      * rewrite (Ht k w) by (rewrite lookup_insert_ne by exact Hk; exact Hw).
        rewrite filter_cons_False; [reflexivity|].
        intros Hc. apply bool_decide_unpack in Hc as (Hk' & _). contradiction.
Qed.
End Attach.

(** ** The tree builder: roots and children of the result *)

Lemma index_records_indexed records :
  indexed records {| roots := []; table := index_records records |}.
Proof. intros k. apply index_records_dom. Qed.

Lemma buildTree_indexed records : indexed records (buildTree records).
Proof.
  unfold buildTree.
  apply (foldl_attach records records _ (index_records_indexed records)).
Qed.

(** The root list holds, in input order, the records naming themselves or
    an identifier no record has. *)
Lemma buildTree_roots records :
  roots (buildTree records) = root_ids records.
Proof.
  unfold buildTree.
  destruct (foldl_attach records records _ (index_records_indexed records))
    as (_ & Hr & _).
  rewrite Hr. reflexivity.
Qed.

(** The wrapper of [k] holds, in input order, the records attached
    under [k]. *)
Lemma buildTree_table records k w :
  table (buildTree records) !! k = Some w →
  record w ∈ records ∧ id (record w) = k
  ∧ childRefs w = children_of records k.
Proof.
  intros Hw.
  assert (Hk : is_Some (index_records records !! k)).
  { apply index_records_dom, (buildTree_indexed records k).
    rewrite Hw. eexists; reflexivity. }
  destruct Hk as [w0 Hw0].
  destruct (index_records_lookup records k w0 Hw0) as (Hin & Hid & Hch).
  unfold buildTree in Hw.
  destruct (foldl_attach records records _ (index_records_indexed records))
    as (_ & _ & Ht).
  rewrite (Ht k w0 Hw0), Hch in Hw. injection Hw as <-. simpl. auto.
Qed.

Lemma buildTree_table_is_Some records k :
  k ∈ id <$> records → is_Some (table (buildTree records) !! k).
Proof. apply buildTree_indexed. Qed.

Lemma child_is_not_parent records k r :
  is_child_of records k r → id r ≠ k.
Proof.
  intros (Hk & Hself & _)%bool_decide_unpack Heq. congruence.
Qed.

(** C4: a record whose parent identifier is its own identifier, or is
    the identifier of no record of the input, is in the root list of the
    forest [buildTree] returns (a total function: it returns on every
    input); its wrapper is in the store and does not hold itself as a
    child. *)
Theorem unresolved_parent_becomes_root (records : list CommentRecord)
    (r : CommentRecord) :
  r ∈ records →
  parentId r = id r ∨ parentId r ∉ id <$> records →
  id r ∈ roots (buildTree records)
  ∧ ∃ w, table (buildTree records) !! id r = Some w ∧ id r ∉ childRefs w.
Proof.
  intros Hin Hroot. split.
  - rewrite buildTree_roots. apply list_elem_of_fmap_2.
    apply list_elem_of_filter. split; [|exact Hin].
    apply bool_decide_pack. exact Hroot.
  - destruct (buildTree_table_is_Some records (id r)) as [w Hw];
      [apply list_elem_of_fmap_2; exact Hin|].
    exists w. split; [exact Hw|].
    destruct (buildTree_table records _ w Hw) as (_ & _ & ->).
    intros (r' & Hid & Hr')%list_elem_of_fmap_1.
    apply list_elem_of_filter in Hr' as [Hc _].
    apply child_is_not_parent in Hc. congruence.
Qed.

Lemma unresolved_parent_becomes_root_witness :
  3 ∈ roots (buildTree [ {| id := 1; parentId := 0; payload := "" |};
                         {| id := 2; parentId := 1; payload := "" |};
                         {| id := 3; parentId := 3; payload := "" |};
                         {| id := 4; parentId := 99; payload := "" |} ])
  ∧ 4 ∈ roots (buildTree [ {| id := 1; parentId := 0; payload := "" |};
                           {| id := 2; parentId := 1; payload := "" |};
                           {| id := 3; parentId := 3; payload := "" |};
                           {| id := 4; parentId := 99; payload := "" |} ]).
Proof.
  split.
  - refine (proj1 (unresolved_parent_becomes_root _
             {| id := 3; parentId := 3; payload := "" |} _ _)).
    + do 2 right; left.
    + left; reflexivity.
  - refine (proj1 (unresolved_parent_becomes_root _
             {| id := 4; parentId := 99; payload := "" |} _ _)).
    + do 3 right; left.
    + right. compute_done.
Defined.

(** C6: absent raw comments render the spinner; present raw comments
    whose capped forest is empty render the empty result, in particular
    the empty list under a builder that maps it to the empty forest; and
    [buildTree] maps the empty sequence to the empty forest. *)
Theorem absent_spinner_empty_no_results (S2I : string → IntegerOrInfinity)
    (convertToTree : option (list CommentRecord) → list comment)
    (perPage : JSValue) (activeComment : option comment) :
  CommentTemplateEdit S2I convertToTree None perPage activeComment = Spinner
  ∧ (∀ raw, cappedComments S2I convertToTree (Some raw) perPage = [] →
       CommentTemplateEdit S2I convertToTree (Some raw) perPage activeComment
       = NoResults)
  ∧ (convertToTree (Some []) = [] →
       CommentTemplateEdit S2I convertToTree (Some []) perPage activeComment
       = NoResults)
  ∧ buildTree [] = {| roots := []; table := ∅ |}
  ∧ ∀ fuel, forest_of fuel (buildTree []) = Some [].
Proof.
  split; [reflexivity|].
  split; [intros raw Hc; rewrite edit_unfold, Hc; reflexivity|].
  split; [|split; [reflexivity | intros fuel; reflexivity]].
  intros Hempty. rewrite edit_unfold.
  unfold cappedComments, slice. rewrite Hempty. simpl.
  rewrite take_nil. reflexivity.
Qed.

Lemma absent_spinner_empty_no_results_witness :
  CommentTemplateEdit (λ _, Finite 0)
    (λ raw, match raw with
            | Some rs => default [] (forest_of (length rs) (buildTree rs))
            | None => []
            end)
    (Some []) JSUndefined None
  = NoResults.
Proof.
  refine (proj1 (proj2 (proj2 (absent_spinner_empty_no_results (λ _, Finite 0)
    (λ raw, match raw with
            | Some rs => default [] (forest_of (length rs) (buildTree rs))
            | None => []
            end) JSUndefined None))) _).
  reflexivity.
Defined.

(** ** The tree builder on distinct identifiers *)

Lemma fmap_bind_list {A B C} (f : B → C) (g : A → list B) (l : list A) :
  f <$> (l ≫= g) = l ≫= (λ x, f <$> g x).
Proof.
  induction l as [|x l IHl]; [reflexivity|].
  rewrite !bind_cons, fmap_app, IHl. reflexivity.
Qed.

Lemma NoDup_fmap_eq {A B} (f : A → B) (l : list A) x y :
  NoDup (f <$> l) → x ∈ l → y ∈ l → f x = f y → x = y.
Proof.
  induction l as [|z l IHl]; intros Hnd Hx Hy Heq; [inversion Hx|].
  rewrite fmap_cons in Hnd. apply NoDup_cons in Hnd as [Hz Hnd].
  apply elem_of_cons in Hx as [->|Hx]; apply elem_of_cons in Hy as [->|Hy].
  - reflexivity.
  - exfalso. apply Hz. rewrite Heq. apply list_elem_of_fmap_2. exact Hy.
  - exfalso. apply Hz. rewrite <- Heq. apply list_elem_of_fmap_2. exact Hx.
  - apply IHl; assumption.
Qed.

Lemma depth_lt records n k d : depth n records k = Some d → (d < n)%nat.
Proof.
  revert k d. induction n as [|n IHn]; intros k d; simpl; [discriminate|].
  destruct (parent_link records k) as [p|]; [|intros [= <-]; lia].
  destruct (depth n records p) as [d'|] eqn:Hd; simpl; [|discriminate].
  intros [= <-]. apply IHn in Hd. lia.
Qed.

Lemma depth_mono records n m k d :
  depth n records k = Some d → (n ≤ m)%nat → depth m records k = Some d.
Proof.
  revert m k d. induction n as [|n IHn]; intros m k d; simpl; [discriminate|].
  intros Hd Hle. destruct m as [|m]; [lia|]. simpl.
  destruct (parent_link records k) as [p|]; [|exact Hd].
  destruct (depth n records p) as [d'|] eqn:Hp; simpl in Hd; [|discriminate].
  rewrite (IHn m p d' Hp) by lia. exact Hd.
Qed.

Section DistinctIds.
Variable records : list CommentRecord.
Hypothesis records_distinct : NoDup (id <$> records).

Lemma list_find_id r :
  r ∈ records → ∃ i, list_find (λ r', id r' = id r) records = Some (i, r).
Proof.
  intros Hr.
  destruct (list_find_elem_of (λ r', id r' = id r) records r Hr eq_refl)
    as [[i r'] Hfind].
  exists i. rewrite Hfind. do 2 f_equal.
  apply list_find_Some in Hfind as (Hi & Hid & _).
  apply (NoDup_fmap_eq id records); [assumption| |assumption|assumption].
  apply list_elem_of_lookup. exists i. exact Hi.
Qed.

Lemma parent_link_root r :
  r ∈ records → is_root records r = true → parent_link records (id r) = None.
Proof.
  intros Hr Hroot. unfold parent_link.
  destruct (list_find_id r Hr) as [i ->]. simpl.
  apply bool_decide_eq_true in Hroot.
  rewrite bool_decide_eq_false_2; [reflexivity|].
  intros [Hself Hin]. destruct Hroot; contradiction.
Qed.

Lemma parent_link_child r :
  r ∈ records → is_root records r = false →
  parent_link records (id r) = Some (parentId r).
Proof.
  intros Hr Hroot. unfold parent_link.
  destruct (list_find_id r Hr) as [i ->]. simpl.
  rewrite bool_decide_eq_true_2; [reflexivity|].
  apply is_root_false. exact Hroot.
Qed.

Lemma children_of_elem k p :
  k ∈ children_of records p →
  ∃ r, r ∈ records ∧ id r = k ∧ parentId r = p ∧ is_root records r = false.
Proof.
  intros (r & -> & Hr)%list_elem_of_fmap_1.
  apply list_elem_of_filter in Hr as [Hc Hr].
  apply bool_decide_unpack in Hc as (Hp & Hself & Hin).
  exists r. split; [exact Hr|]. split; [reflexivity|]. split; [exact Hp|].
  apply bool_decide_eq_false. intros [?|Hn]; [contradiction|].
  apply Hn. rewrite Hp. exact Hin.
Qed.

Lemma children_of_parent_link k p :
  k ∈ children_of records p → parent_link records k = Some p.
Proof.
  intros (r & Hr & <- & <- & Hroot)%children_of_elem.
  apply parent_link_child; assumption.
Qed.

Lemma children_of_ids k p :
  k ∈ children_of records p → k ∈ id <$> records ∧ p ∈ id <$> records.
Proof.
  intros (r & Hr & <- & <- & Hroot)%children_of_elem.
  split; [apply list_elem_of_fmap_2; exact Hr|].
  apply is_root_false. exact Hroot.
Qed.

Lemma NoDup_ids_filter (P : CommentRecord → Prop) `{!∀ r, Decision (P r)} :
  NoDup (id <$> filter P records).
Proof.
  apply NoDup_fmap_2_strong.
  - intros x y [_ Hx]%list_elem_of_filter [_ Hy]%list_elem_of_filter Heq.
    apply (NoDup_fmap_eq id records); assumption.
  - apply NoDup_filter. apply (NoDup_fmap_1 id). exact records_distinct.
Qed.

Lemma children_of_NoDup p : NoDup (children_of records p).
Proof. apply NoDup_ids_filter. Qed.

Lemma root_ids_NoDup : NoDup (root_ids records).
Proof. apply NoDup_ids_filter. Qed.

Lemma root_ids_elem k :
  k ∈ id <$> records → parent_link records k = None → k ∈ root_ids records.
Proof.
  intros (r & -> & Hr)%list_elem_of_fmap_1 Hlink.
  apply list_elem_of_fmap_2, list_elem_of_filter. split; [|exact Hr].
  destruct (is_root records r) eqn:Hroot; [exact I|].
  rewrite (parent_link_child r Hr Hroot) in Hlink. discriminate.
Qed.

Lemma root_ids_parent_link k :
  k ∈ root_ids records → k ∈ id <$> records ∧ parent_link records k = None.
Proof.
  intros (r & -> & Hr)%list_elem_of_fmap_1.
  apply list_elem_of_filter in Hr as [Hroot Hr].
  split; [apply list_elem_of_fmap_2; exact Hr|].
  apply parent_link_root; [exact Hr|]. apply Is_true_true. exact Hroot.
Qed.
End DistinctIds.

(** ** Reading the store as nested objects *)

Lemma materialize_Some n (t : gmap Z Wrapper) k c :
  materialize n t k = Some c →
  ∃ n' w, n = S n' ∧ t !! k = Some w ∧ ref c = k
          ∧ commentId c = id (record w)
          ∧ Forall2 (λ k' c', materialize n' t k' = Some c')
              (childRefs w) (children c).
Proof.
  destruct n as [|n]; simpl; [discriminate|].
  destruct (t !! k) as [w|] eqn:Hw; simpl; [|discriminate].
  destruct (mapM (materialize n t) (childRefs w)) as [cs|] eqn:Hm;
    simpl; [|discriminate].
  intros [= <-]. exists n, w. simpl.
  split; [reflexivity|]. split; [reflexivity|]. split; [reflexivity|].
  split; [reflexivity|]. apply mapM_Some. exact Hm.
Qed.

Lemma materialized_refs n (t : gmap Z Wrapper) ks cs :
  Forall2 (λ k' c', materialize n t k' = Some c') ks cs → ref <$> cs = ks.
Proof.
  induction 1 as [|k c ks cs Hk _ IH]; [reflexivity|].
  rewrite fmap_cons, IH. f_equal.
  apply materialize_Some in Hk as (? & ? & _ & _ & Href & _). exact Href.
Qed.

Lemma materialized_elem n (t : gmap Z Wrapper) ks cs c :
  Forall2 (λ k' c', materialize n t k' = Some c') ks cs → c ∈ cs →
  ∃ k, materialize n t k = Some c.
Proof.
  induction 1 as [|k c' ks cs Hk _ IH]; intros Hc; [inversion Hc|].
  apply elem_of_cons in Hc as [->|Hc]; [exists k; exact Hk | auto].
Qed.

Lemma subtree_nodes_unfold c :
  subtree_nodes c = c :: (children c ≫= subtree_nodes).
Proof. destruct c; reflexivity. Qed.

Lemma subtree_nodes_child (P : comment → Prop) c c1 :
  Forall P (subtree_nodes c) → c1 ∈ children c → Forall P (subtree_nodes c1).
Proof.
  rewrite subtree_nodes_unfold, !Forall_forall. intros H Hc1 x Hx.
  apply H. right. apply list_elem_of_bind. exists c1. auto.
Qed.

(** Every node read from the store of [buildTree] agrees with the input. *)
Lemma materialize_faithful records n k c :
  materialize n (table (buildTree records)) k = Some c →
  Forall (faithful records) (subtree_nodes c).
Proof.
  revert k c. induction n as [|n IHn]; intros k c Hc; [discriminate|].
  apply materialize_Some in Hc as (n' & w & [= <-] & Hw & Href & Hid & Hch).
  rewrite subtree_nodes_unfold. constructor.
  - destruct (buildTree_table records k w Hw) as (_ & Hidw & Hkids).
    split; [congruence|]. split.
    + rewrite Href. apply (buildTree_indexed records k).
      rewrite Hw. eexists; reflexivity.
    + rewrite Href, <- Hkids. exact (materialized_refs _ _ _ _ Hch).
  - apply Forall_bind, Forall_forall. intros c1 Hc1. simpl.
    destruct (materialized_elem _ _ _ _ c1 Hch Hc1) as [k1 Hk1].
    exact (IHn k1 c1 Hk1).
Qed.

(** ** Acyclic inputs *)

Section Acyclic.
Variable records : list CommentRecord.
Hypothesis records_distinct : NoDup (id <$> records).
Hypothesis records_acyclic : acyclic records = true.

Lemma depth_is_Some k :
  k ∈ id <$> records → is_Some (depth (length records) records k).
Proof.
  intros (r & -> & Hr)%list_elem_of_fmap_1.
  pose proof records_acyclic as Hac. unfold acyclic in Hac.
  apply Is_true_true, forallb_True in Hac.
  rewrite Forall_forall in Hac.
  pose proof (Hac r Hr) as Hd. apply bool_decide_unpack in Hd. exact Hd.
Qed.

Lemma depth_of_lt k :
  k ∈ id <$> records → (depth_of records k < length records)%nat.
Proof.
  intros Hk. destruct (depth_is_Some k Hk) as [d Hd].
  unfold depth_of. rewrite Hd. simpl. exact (depth_lt _ _ _ _ Hd).
Qed.

Lemma depth_of_root k : k ∈ root_ids records → depth_of records k = 0%nat.
Proof.
  intros Hk.
  destruct (root_ids_parent_link records records_distinct k Hk) as [Hin Hlink].
  destruct (depth_is_Some k Hin) as [d Hd]. unfold depth_of. rewrite Hd.
  destruct (length records) as [|n]; simpl in Hd; [discriminate|].
  rewrite Hlink in Hd. injection Hd as <-. reflexivity.
Qed.

Lemma depth_of_child k p :
  k ∈ children_of records p → depth_of records k = S (depth_of records p).
Proof.
  intros Hk.
  pose proof (children_of_parent_link records records_distinct k p Hk) as Hlink.
  destruct (children_of_ids records k p Hk) as [Hkin Hpin].
  destruct (depth_is_Some k Hkin) as [d Hd].
  unfold depth_of. rewrite Hd. simpl.
  destruct (length records) as [|n] eqn:Hlen; simpl in Hd; [discriminate|].
  rewrite Hlink in Hd.
  destruct (depth n records p) as [d'|] eqn:Hp; simpl in Hd; [|discriminate].
  injection Hd as <-.
  rewrite (depth_mono records n (S n) p d' Hp) by lia. reflexivity.
Qed.

Lemma faithful_child c c1 :
  Forall (faithful records) (subtree_nodes c) → c1 ∈ children c →
  ref c1 ∈ children_of records (ref c).
Proof.
  rewrite subtree_nodes_unfold. intros Hf Hc1.
  apply Forall_inv in Hf as (_ & _ & Hkids).
  rewrite <- Hkids. apply list_elem_of_fmap_2. exact Hc1.
Qed.

Lemma faithful_child_depth c c1 :
  Forall (faithful records) (subtree_nodes c) → c1 ∈ children c →
  depth_of records (ref c1) = S (depth_of records (ref c)).
Proof. intros Hf Hc1. apply depth_of_child, faithful_child; assumption. Qed.

Lemma subtree_refs_unfold c y :
  y ∈ ref <$> subtree_nodes c →
  y = ref c ∨ ∃ c1, c1 ∈ children c ∧ y ∈ ref <$> subtree_nodes c1.
Proof.
  rewrite subtree_nodes_unfold, fmap_cons, fmap_bind_list.
  intros [->|Hy]%elem_of_cons; [left; reflexivity|]. right.
  apply list_elem_of_bind in Hy as (c1 & Hy & Hc1). exists c1. auto.
Qed.

(** Below a node every other node is strictly deeper. *)
Lemma subtree_depth c y :
  Forall (faithful records) (subtree_nodes c) →
  y ∈ ref <$> subtree_nodes c →
  y = ref c ∨ (depth_of records (ref c) < depth_of records y)%nat.
Proof.
  induction c as [r i cs IH] using comment_nested_ind. intros Hf Hy.
  apply subtree_refs_unfold in Hy as [->|(c1 & Hc1 & Hy)]; [left; reflexivity|].
  right. rewrite Forall_forall in IH.
  pose proof (subtree_nodes_child _ _ c1 Hf Hc1) as Hf1.
  pose proof (faithful_child_depth _ c1 Hf Hc1) as Hd.
  destruct (IH c1 Hc1 Hf1 Hy) as [->|Hlt]; lia.
Qed.

(** Two subtrees rooted at the same depth share a node only when they
    have the same root: a node has one parent link. *)
Lemma subtrees_disjoint c1 c2 y :
  Forall (faithful records) (subtree_nodes c1) →
  Forall (faithful records) (subtree_nodes c2) →
  depth_of records (ref c1) = depth_of records (ref c2) →
  y ∈ ref <$> subtree_nodes c1 → y ∈ ref <$> subtree_nodes c2 →
  ref c1 = ref c2.
Proof.
  revert c2. induction c1 as [r i cs IH] using comment_nested_ind.
  intros c2 Hf1 Hf2 Hd Hy1 Hy2. rewrite Forall_forall in IH.
  apply subtree_refs_unfold in Hy1 as [->|(a1 & Ha1 & Hy1)];
    apply subtree_refs_unfold in Hy2 as [Hy2|(a2 & Ha2 & Hy2)].
  - exact Hy2.
  - exfalso.
    pose proof (faithful_child_depth _ a2 Hf2 Ha2) as Hd2.
    destruct (subtree_depth a2 _ (subtree_nodes_child _ _ a2 Hf2 Ha2) Hy2)
      as [Heq|Hlt]; [rewrite <- Heq in Hd2|]; simpl in *; lia.
  - exfalso. subst y.
    pose proof (faithful_child_depth _ a1 Hf1 Ha1) as Hd1.
    destruct (subtree_depth a1 _ (subtree_nodes_child _ _ a1 Hf1 Ha1) Hy1)
      as [Heq|Hlt]; [rewrite <- Heq in Hd1|]; simpl in *; lia.
  - pose proof (faithful_child_depth _ a1 Hf1 Ha1) as Hd1.
    pose proof (faithful_child_depth _ a2 Hf2 Ha2) as Hd2.
    assert (Heq : ref a1 = ref a2).
    { apply (IH a1 Ha1 a2);
        [exact (subtree_nodes_child _ _ a1 Hf1 Ha1)
        |exact (subtree_nodes_child _ _ a2 Hf2 Ha2)
        |simpl in *; lia|assumption|assumption]. }
    pose proof (children_of_parent_link records records_distinct _ _
                  (faithful_child _ a1 Hf1 Ha1)) as H1.
    pose proof (children_of_parent_link records records_distinct _ _
                  (faithful_child _ a2 Hf2 Ha2)) as H2.
    rewrite Heq, H2 in H1. injection H1 as H1. symmetry. exact H1.
Qed.

(** Siblings of distinct identity have disjoint subtrees. *)
Lemma siblings_NoDup (cs : list comment) (d : nat) :
  (∀ c, c ∈ cs → Forall (faithful records) (subtree_nodes c)) →
  (∀ c, c ∈ cs → depth_of records (ref c) = d) →
  (∀ c, c ∈ cs → NoDup (ref <$> subtree_nodes c)) →
  NoDup (ref <$> cs) →
  NoDup (ref <$> (cs ≫= subtree_nodes)).
Proof.
  intros Hf Hd Hsub Hnd. rewrite fmap_bind_list. apply NoDup_bind.
  - intros c1 c2 y Hc1 Hc2 Hy1 Hy2.
    apply (NoDup_fmap_eq ref cs); [assumption..|].
    apply (subtrees_disjoint c1 c2 y); auto.
    rewrite (Hd c1 Hc1), (Hd c2 Hc2). reflexivity.
  - exact Hsub.
  - apply (NoDup_fmap_1 ref). exact Hnd.
Qed.

Lemma subtree_NoDup c :
  Forall (faithful records) (subtree_nodes c) →
  NoDup (ref <$> subtree_nodes c).
Proof.
  induction c as [r i cs IH] using comment_nested_ind. intros Hf.
  rewrite Forall_forall in IH.
  rewrite subtree_nodes_unfold, fmap_cons. simpl. apply NoDup_cons. split.
  - intros Hr. rewrite fmap_bind_list in Hr.
    apply list_elem_of_bind in Hr as (c1 & Hr & Hc1).
    pose proof (faithful_child_depth _ c1 Hf Hc1) as Hd. simpl in Hd.
    destruct (subtree_depth c1 r (subtree_nodes_child _ _ c1 Hf Hc1) Hr)
      as [Heq|Hlt]; [rewrite <- Heq in Hd|]; lia.
  - apply (siblings_NoDup cs (S (depth_of records r))).
    + intros c1 Hc1. exact (subtree_nodes_child _ _ c1 Hf Hc1).
    + intros c1 Hc1. exact (faithful_child_depth _ c1 Hf Hc1).
    + intros c1 Hc1. apply IH; [exact Hc1|].
      exact (subtree_nodes_child _ _ c1 Hf Hc1).
    + rewrite subtree_nodes_unfold in Hf.
      apply Forall_inv in Hf as (_ & _ & Hkids). simpl in Hkids.
      rewrite Hkids. apply children_of_NoDup. exact records_distinct.
Qed.

Lemma parent_link_children_of k p :
  k ∈ id <$> records → parent_link records k = Some p →
  k ∈ children_of records p.
Proof.
  intros (r & -> & Hr)%list_elem_of_fmap_1 Hlink.
  destruct (is_root records r) eqn:Hroot.
  - rewrite (parent_link_root records records_distinct r Hr Hroot) in Hlink.
    discriminate.
  - rewrite (parent_link_child records records_distinct r Hr Hroot) in Hlink.
    injection Hlink as <-. apply is_root_false in Hroot as [Hself Hin].
    apply list_elem_of_fmap_2, list_elem_of_filter. split; [|exact Hr].
    apply bool_decide_pack. auto.
Qed.

(** With [length records - depth] levels of fuel the wrapper of [k]
    unfolds down to its leaves. *)
Lemma materialize_succeeds (j n : nat) k :
  k ∈ id <$> records →
  (length records - depth_of records k ≤ j)%nat →
  (length records ≤ n + depth_of records k)%nat →
  is_Some (materialize n (table (buildTree records)) k).
Proof.
  revert n k. induction j as [|j IHj]; intros n k Hk Hj Hn;
    pose proof (depth_of_lt k Hk) as Hlt; [lia|].
  destruct n as [|n]; [lia|]. simpl.
  destruct (buildTree_table_is_Some records k Hk) as [w Hw]. rewrite Hw. simpl.
  destruct (buildTree_table records k w Hw) as (_ & _ & Hkids).
  assert (Hm : is_Some (mapM (materialize n (table (buildTree records)))
                          (childRefs w))).
  { apply mapM_is_Some, Forall_forall. intros k' Hk'. simpl.
    rewrite Hkids in Hk'.
    pose proof (depth_of_child k' k Hk') as Hd.
    apply IHj; [apply (children_of_ids records k' k Hk')|lia|lia]. }
  destruct Hm as [cs ->]. simpl. eexists; reflexivity.
Qed.

Lemma forest_of_succeeds :
  is_Some (forest_of (length records) (buildTree records)).
Proof.
  unfold forest_of. apply mapM_is_Some, Forall_forall. intros k Hk. simpl.
  rewrite buildTree_roots in Hk.
  apply (materialize_succeeds (length records)).
  - apply (root_ids_parent_link records records_distinct k Hk).
  - lia.
  - lia.
Qed.

Lemma subtree_nodes_refl c : c ∈ subtree_nodes c.
Proof. rewrite subtree_nodes_unfold. left. Qed.

Lemma subtree_nodes_children c0 c c1 :
  c ∈ subtree_nodes c0 → c1 ∈ children c → c1 ∈ subtree_nodes c0.
Proof.
  induction c0 as [r i cs IH] using comment_nested_ind. intros Hc Hc1.
  rewrite Forall_forall in IH.
  rewrite subtree_nodes_unfold in Hc. rewrite subtree_nodes_unfold.
  right. apply list_elem_of_bind.
  apply elem_of_cons in Hc as [->|Hc].
  - exists c1. split; [apply subtree_nodes_refl | exact Hc1].
  - apply list_elem_of_bind in Hc as (c0 & Hc & Hc0).
    exists c0. split; [apply IH; assumption | exact Hc0].
Qed.

Lemma forest_nodes_children forest c c1 :
  c ∈ forest_nodes forest → c1 ∈ children c → c1 ∈ forest_nodes forest.
Proof.
  unfold forest_nodes. intros (c0 & Hc & Hc0)%list_elem_of_bind Hc1.
  apply list_elem_of_bind. exists c0.
  split; [exact (subtree_nodes_children c0 c c1 Hc Hc1) | exact Hc0].
Qed.

Section Built.
Variable forest : list comment.
Hypothesis forest_built :
  forest_of (length records) (buildTree records) = Some forest.

Lemma built_roots : ref <$> forest = root_ids records.
Proof.
  rewrite <- buildTree_roots. apply mapM_Some in forest_built.
  exact (materialized_refs _ _ _ _ forest_built).
Qed.

Lemma built_root_faithful c :
  c ∈ forest → Forall (faithful records) (subtree_nodes c).
Proof.
  intros Hc. pose proof forest_built as Hb. apply mapM_Some in Hb.
  destruct (materialized_elem _ _ _ _ c Hb Hc) as [k Hk].
  exact (materialize_faithful records _ k c Hk).
Qed.

Lemma built_faithful c : c ∈ forest_nodes forest → faithful records c.
Proof.
  unfold forest_nodes. intros (c0 & Hc & Hc0)%list_elem_of_bind.
  pose proof (built_root_faithful c0 Hc0) as Hf.
  rewrite Forall_forall in Hf. exact (Hf c Hc).
Qed.

Lemma built_NoDup : NoDup (ref <$> forest_nodes forest).
Proof.
  apply (siblings_NoDup forest 0).
  - exact built_root_faithful.
  - intros c Hc. apply depth_of_root. rewrite <- built_roots.
    apply list_elem_of_fmap_2. exact Hc.
  - intros c Hc. apply subtree_NoDup, built_root_faithful. exact Hc.
  - rewrite built_roots. apply root_ids_NoDup. exact records_distinct.
Qed.

(** Every identifier of the input is met in the forest, by induction on
    its depth. *)
Lemma built_covers (d : nat) k :
  k ∈ id <$> records → depth_of records k = d →
  k ∈ ref <$> forest_nodes forest.
Proof.
  revert k. induction d as [d IH] using lt_wf_ind. intros k Hk Hd.
  destruct (parent_link records k) as [p|] eqn:Hlink.
  - pose proof (parent_link_children_of k p Hk Hlink) as Hkp.
    pose proof (depth_of_child k p Hkp) as Hdp.
    destruct (children_of_ids records k p Hkp) as [_ Hp].
    assert (Hpin : p ∈ ref <$> forest_nodes forest)
      by (apply (IH (depth_of records p)); [lia|exact Hp|reflexivity]).
    apply list_elem_of_fmap_1 in Hpin as (c & -> & Hc).
    destruct (built_faithful c Hc) as (_ & _ & Hkids).
    rewrite <- Hkids in Hkp.
    apply list_elem_of_fmap_1 in Hkp as (c1 & -> & Hc1).
    apply list_elem_of_fmap_2. exact (forest_nodes_children forest c c1 Hc Hc1).
  - pose proof (root_ids_elem records records_distinct k Hk Hlink) as Hroot.
    rewrite <- built_roots in Hroot.
    apply list_elem_of_fmap_1 in Hroot as (c & -> & Hc).
    apply list_elem_of_fmap_2. unfold forest_nodes.
    apply list_elem_of_bind. exists c. split; [apply subtree_nodes_refl|exact Hc].
Qed.

Lemma built_commentIds :
  commentId <$> forest_nodes forest = ref <$> forest_nodes forest.
Proof.
  apply list_fmap_ext. intros i c Hc.
  apply built_faithful, list_elem_of_lookup. exists i. exact Hc.
Qed.

Lemma built_permutation : commentId <$> forest_nodes forest ≡ₚ id <$> records.
Proof.
  rewrite built_commentIds.
  apply NoDup_Permutation; [exact built_NoDup | exact records_distinct |].
  intros k. split.
  - intros (c & -> & Hc)%list_elem_of_fmap_1. apply (built_faithful c Hc).
  - intros Hk. exact (built_covers _ k Hk eq_refl).
Qed.

Lemma built_children c :
  c ∈ forest_nodes forest →
  commentId <$> children c = children_of records (commentId c).
Proof.
  intros Hc. destruct (built_faithful c Hc) as (Hid & _ & Hkids).
  rewrite Hid, <- Hkids. apply list_fmap_ext. intros i c1 Hc1.
  apply built_faithful, (forest_nodes_children forest c c1 Hc).
  apply list_elem_of_lookup. exists i. exact Hc1.
Qed.

Lemma built_root_commentIds : commentId <$> forest = root_ids records.
Proof.
  rewrite <- built_roots. apply list_fmap_ext. intros i c Hc.
  apply built_faithful. unfold forest_nodes. apply list_elem_of_bind.
  exists c. split; [apply subtree_nodes_refl|].
  apply list_elem_of_lookup. exists i. exact Hc.
Qed.
End Built.
End Acyclic.

(** ** Acyclicity, stated with a rank *)

Lemma parent_link_ids records k p :
  parent_link records k = Some p →
  k ∈ id <$> records ∧ p ∈ id <$> records.
Proof.
  unfold parent_link.
  destruct (list_find (λ r, id r = k) records) as [[i r]|] eqn:Hfind;
    simpl; [|discriminate].
  case_bool_decide as Hc; [|discriminate]. intros [= <-].
  apply list_find_Some in Hfind as (Hi & <- & _).
  split; [|apply Hc]. apply list_elem_of_fmap_2, list_elem_of_lookup.
  exists i. exact Hi.
Qed.

(** When the bound is hit, the parent links walked so far are pairwise
    distinct identifiers of the input, one more than the bound. *)
Lemma depth_None_chain records (rank : Z → nat) :
  (∀ k p, parent_link records k = Some p → (rank p < rank k)%nat) →
  ∀ n k, k ∈ id <$> records → depth n records k = None →
  ∃ l, length l = S n ∧ NoDup l
       ∧ ∀ x, x ∈ l → x ∈ id <$> records ∧ (rank x ≤ rank k)%nat.
Proof.
  intros Hrank. induction n as [|n IHn]; intros k Hk Hd.
  - exists [k]. split; [reflexivity|]. split; [apply NoDup_singleton|].
    intros x ->%list_elem_of_singleton. split; [exact Hk | lia].
  - simpl in Hd. destruct (parent_link records k) as [p|] eqn:Hlink;
      [|discriminate].
    destruct (depth n records p) eqn:Hp; [discriminate|].
    destruct (parent_link_ids records k p Hlink) as [_ Hpin].
    destruct (IHn p Hpin Hp) as (l & Hlen & Hnd & Hl).
    pose proof (Hrank k p Hlink) as Hlt.
    exists (k :: l). split; [simpl; rewrite Hlen; reflexivity|]. split.
    + apply NoDup_cons. split; [|exact Hnd].
      intros Hin. destruct (Hl k Hin) as [_ Hle]. lia.
    + intros x [->|Hx]%elem_of_cons; [split; [exact Hk | lia]|].
      destruct (Hl x Hx) as [Hxin Hle]. split; [exact Hxin | lia].
Qed.

(** [acyclic] holds exactly when the parent links can be ranked: some
    measure strictly decreases from every record to the parent it is
    attached under. *)
Lemma acyclic_iff_ranked records :
  NoDup (id <$> records) →
  acyclic records = true
  ↔ ∃ rank : Z → nat,
      ∀ k p, parent_link records k = Some p → (rank p < rank k)%nat.
Proof.
  intros Hnd. split.
  - intros Hac. exists (depth_of records). intros k p Hlink.
    destruct (parent_link_ids records k p Hlink) as [Hk _].
    rewrite (depth_of_child records Hnd Hac k p); [lia|].
    apply parent_link_children_of; assumption.
  - intros [rank Hrank]. unfold acyclic.
    apply Is_true_true, forallb_True, Forall_forall. intros r Hr.
    apply bool_decide_pack.
    destruct (depth (length records) records (id r)) as [d|] eqn:Hd;
      [eexists; reflexivity|].
    destruct (depth_None_chain records rank Hrank _ (id r)
                (list_elem_of_fmap_2 id _ _ Hr) Hd) as (l & Hlen & Hl & Hin).
    assert (Hsub : l ⊆+ id <$> records)
      by (apply NoDup_submseteq; [exact Hl | intros x Hx; apply (Hin x Hx)]).
    apply submseteq_length in Hsub. rewrite length_fmap in Hsub. lia.
Qed.

(** C5, amended: for an input with distinct identifiers whose parent
    links run into no cycle, the store of [buildTree] unfolds to a forest
    of nested nodes; the identifiers of its nodes are a permutation of the
    identifiers of the input (one node per record, none twice, none
    lost); its roots are the root records in input order and the children
    of every node are the records attached under it, in input order (both
    are subsequences of the input). *)
Theorem buildTree_one_node_per_record (records : list CommentRecord) :
  NoDup (id <$> records) →
  acyclic records = true →
  ∃ forest,
    forest_of (length records) (buildTree records) = Some forest
    ∧ commentId <$> forest_nodes forest ≡ₚ id <$> records
    ∧ commentId <$> forest = root_ids records
    ∧ sublist (commentId <$> forest) (id <$> records)
    ∧ ∀ c, c ∈ forest_nodes forest →
        commentId <$> children c = children_of records (commentId c)
        ∧ sublist (commentId <$> children c) (id <$> records).
Proof.
  intros Hnd Hac.
  destruct (forest_of_succeeds records Hnd Hac) as [forest Hforest].
  exists forest. split; [exact Hforest|].
  split; [exact (built_permutation records Hnd Hac forest Hforest)|].
  pose proof (built_root_commentIds records forest Hforest) as Hroots.
  split; [exact Hroots|].
  split; [rewrite Hroots; apply fmap_sublist, sublist_filter|].
  intros c Hc. pose proof (built_children records forest Hforest c Hc) as Hch.
  split; [exact Hch|]. rewrite Hch. apply fmap_sublist, sublist_filter.
Qed.

Lemma buildTree_one_node_per_record_witness :
  ∃ forest,
    forest_of 4 (buildTree [ {| id := 1; parentId := 0; payload := "" |};
                             {| id := 2; parentId := 1; payload := "" |};
                             {| id := 3; parentId := 0; payload := "" |};
                             {| id := 4; parentId := 99; payload := "" |} ])
    = Some forest
    ∧ commentId <$> forest_nodes forest ≡ₚ [1; 2; 3; 4]
    ∧ commentId <$> forest = [1; 3; 4]
    ∧ sublist (commentId <$> forest) [1; 2; 3; 4]
    ∧ ∀ c, c ∈ forest_nodes forest →
        commentId <$> children c
        = children_of [ {| id := 1; parentId := 0; payload := "" |};
                        {| id := 2; parentId := 1; payload := "" |};
                        {| id := 3; parentId := 0; payload := "" |};
                        {| id := 4; parentId := 99; payload := "" |} ]
            (commentId c)
        ∧ sublist (commentId <$> children c) [1; 2; 3; 4].
Proof.
  apply (buildTree_one_node_per_record
           [ {| id := 1; parentId := 0; payload := "" |};
             {| id := 2; parentId := 1; payload := "" |};
             {| id := 3; parentId := 0; payload := "" |};
             {| id := 4; parentId := 99; payload := "" |} ]).
  - compute_done.
  - reflexivity.
Defined.

(** The example of the specification: roots 1, 3 and 4 (99 is the
    identifier of no record), and 2 the only child of 1. *)
Example buildTree_spec_example :
  forest_of 4 (buildTree [ {| id := 1; parentId := 0; payload := "" |};
                           {| id := 2; parentId := 1; payload := "" |};
                           {| id := 3; parentId := 0; payload := "" |};
                           {| id := 4; parentId := 99; payload := "" |} ])
  = Some [ Comment 1 1 [Comment 2 2 []]; Comment 3 3 []; Comment 4 4 [] ].
Proof. reflexivity. Qed.

(** A parent that comes later in the input is resolved all the same. *)
Example buildTree_forward_reference :
  forest_of 2 (buildTree [ {| id := 2; parentId := 1; payload := "" |};
                           {| id := 1; parentId := 0; payload := "" |} ])
  = Some [ Comment 1 1 [Comment 2 2 []] ].
Proof. reflexivity. Qed.

(** C5, as stated, fails: two records with distinct identifiers that
    name each other as parent are both attached and neither is a root, so
    the forest is empty and has no node for either record. *)
Lemma buildTree_cycle_counterexample :
  NoDup (id <$> [ {| id := 1; parentId := 2; payload := "" |};
                  {| id := 2; parentId := 1; payload := "" |} ])
  ∧ roots (buildTree [ {| id := 1; parentId := 2; payload := "" |};
                       {| id := 2; parentId := 1; payload := "" |} ]) = []
  ∧ forest_of 2 (buildTree [ {| id := 1; parentId := 2; payload := "" |};
                             {| id := 2; parentId := 1; payload := "" |} ])
    = Some []
  ∧ ¬ (commentId <$> forest_nodes []
       ≡ₚ id <$> [ {| id := 1; parentId := 2; payload := "" |};
                   {| id := 2; parentId := 1; payload := "" |} ]).
Proof.
  split; [compute_done|]. split; [reflexivity|]. split; [reflexivity|].
  intros Hperm. apply Permutation_nil_l in Hperm. discriminate.
Qed.

(** * Further properties *)

(** ** useEntityRecord: what a status tells *)

Section UseEntityRecordStatus.
Context {EntityRecord : Type}.
Implicit Types (r : QueryResult EntityRecord).

(** X1: the status is SUCCESS exactly when the record is not resolving,
    has resolved and its data is there; under SUCCESS the returned
    [record] is therefore present and [isMissing] is off. *)
Theorem success_has_record r editedRecord hasEdits :
  let res := useEntityRecord r editedRecord hasEdits in
  (res_status res = SUCCESS
   ↔ isResolving r = false ∧ hasResolved r = true ∧ is_Some (data r))
  ∧ (res_status res = SUCCESS →
     is_Some (res_record res) ∧ res_isMissing res = false).
Proof.
  simpl. unfold status, isMissing.
  destruct (isResolving r), (hasResolved r); simpl;
    try case_bool_decide; simpl;
    intuition (discriminate || (try assumption)).
Qed.

(** X2: the status is ERROR exactly when [isMissing] holds and the
    record is not being resolved again. *)
Theorem error_iff_missing_and_settled r editedRecord hasEdits :
  let res := useEntityRecord r editedRecord hasEdits in
  res_status res = ERROR
  ↔ res_isMissing res = true ∧ res_isResolving res = false.
Proof.
  simpl. unfold status, isMissing.
  destruct (isResolving r), (hasResolved r); simpl;
    try case_bool_decide; simpl;
    intuition (discriminate || (try assumption)).
Qed.
End UseEntityRecordStatus.

(** ** The renderer under any selection *)

Lemma with_first_unfold firstComment c :
  with_first firstComment c
  = (c, firstComment) :: (children c ≫= with_first (head (children c))).
Proof. destruct c; reflexivity. Qed.

Lemma item_bodies_shown activeComment firstComment c :
  item_bodies (CommentTemplateInnerBlocks activeComment firstComment c)
  = shown activeComment <$> with_first firstComment c.
Proof.
  revert firstComment. induction c as [r i cs IH] using comment_nested_ind.
  intros firstComment. rewrite item_bodies_unfold, with_first_unfold.
  rewrite fmap_cons. f_equal. simpl. unfold CommentsList.
  generalize (head cs) as fc. intros fc.
  induction IH as [|c cs Hc _ IHcs]; [reflexivity|].
  rewrite rendered_bodies_cons, IHcs, Hc, bind_cons, fmap_app. reflexivity.
Qed.

(** The rendering equation: each node shows what [shown] tells for the
    head of its own list. *)
Lemma rendered_bodies_shown forest activeComment :
  rendered_bodies (CommentsList forest activeComment)
  = shown activeComment <$> forest_with_first forest.
Proof.
  unfold CommentsList, forest_with_first. generalize (head forest) as fc.
  intros fc. induction forest as [|c cs IHcs]; [reflexivity|].
  rewrite rendered_bodies_cons, IHcs, item_bodies_shown, bind_cons, fmap_app.
  reflexivity.
Qed.

Lemma with_first_nodes firstComment c :
  (with_first firstComment c).*1 = subtree_nodes c.
Proof.
  revert firstComment. induction c as [r i cs IH] using comment_nested_ind.
  intros firstComment. rewrite with_first_unfold, subtree_nodes_unfold.
  rewrite fmap_cons. f_equal. simpl. generalize (head cs) as fc. intros fc.
  induction IH as [|c cs Hc _ IHcs]; [reflexivity|].
  rewrite !bind_cons, fmap_app, IHcs, Hc. reflexivity.
Qed.

Lemma forest_with_first_nodes forest :
  (forest_with_first forest).*1 = forest_nodes forest.
Proof.
  unfold forest_with_first, forest_nodes. generalize (head forest) as fc.
  intros fc. induction forest as [|c cs IHcs]; [reflexivity|].
  rewrite !bind_cons, fmap_app, IHcs, with_first_nodes. reflexivity.
Qed.

Lemma rendered_nodes forest activeComment :
  (rendered_bodies (CommentsList forest activeComment)).*1
  = forest_nodes forest.
Proof.
  rewrite rendered_bodies_shown, <- list_fmap_compose.
  rewrite <- forest_with_first_nodes. apply list_fmap_ext.
  intros i [c h] _. reflexivity.
Qed.

(** X3: whatever the selection (set, unset, or an object that is not in
    the forest), every node of the forest is rendered exactly once, in
    document order: the replies of a comment are rendered whether the
    comment shows its inner blocks or its preview. *)
Theorem every_node_rendered_once (forest : list comment)
    (activeComment : option comment) :
  (rendered_bodies (CommentsList forest activeComment)).*1
  = forest_nodes forest.
Proof. apply rendered_nodes. Qed.

(** X4: a rendered preview is the preview of the node it is rendered
    for, a node of the forest: activating it selects that very node. *)
Theorem preview_selects_its_comment (forest : list comment)
    (activeComment : option comment) (c target : comment) :
  (c, Preview target) ∈ rendered_bodies (CommentsList forest activeComment) →
  target = c
  ∧ c ∈ forest_nodes forest
  ∧ handleOnClick target activeComment = Some c.
Proof.
  intros Hin.
  assert (Hc : c ∈ forest_nodes forest).
  { rewrite <- (rendered_nodes forest activeComment).
    apply (list_elem_of_fmap_2 fst _ _ Hin). }
  rewrite rendered_bodies_shown in Hin.
  apply list_elem_of_fmap_1 in Hin as ([c' h] & Heq & _).
  unfold shown in Heq. simpl in Heq.
  destruct (is_same c' (or_default activeComment h)); [discriminate|].
  injection Heq as -> ->. auto.
Qed.

Lemma preview_selects_its_comment_witness :
  handleOnClick (Comment 2 2 []) None = Some (Comment 2 2 []).
Proof.
  refine (proj2 (proj2 (preview_selects_its_comment
            [Comment 1 1 []; Comment 2 2 []] None
            (Comment 2 2 []) (Comment 2 2 []) _))).
  vm_compute. right; left.
Defined.

(** X5: a selection that is not an object of the rendered forest (a
    root cut off by the cap, or an object of an earlier forest) leaves
    every node as a preview: no node shows the inner blocks, and the
    default first comment does not step in. *)
Theorem foreign_selection_shows_no_editor (forest : list comment)
    (a : comment) :
  ref a ∉ ref <$> forest_nodes forest →
  active_nodes (CommentsList forest (Some a)) = []
  ∧ rendered_bodies (CommentsList forest (Some a))
    = (λ c, (c, Preview c)) <$> forest_nodes forest.
Proof.
  intros Hout. split.
  - rewrite active_nodes_selected. apply filter_none.
    intros c Hc Heq. apply Hout. rewrite <- Heq.
    apply list_elem_of_fmap_2. exact Hc.
  - rewrite rendered_bodies_selected. apply list_fmap_ext.
    intros i c Hc. unfold same_object.
    rewrite bool_decide_eq_false_2; [reflexivity|].
    intros Heq. apply Hout. rewrite <- Heq.
    apply list_elem_of_fmap_2, list_elem_of_lookup. exists i. exact Hc.
Qed.

Lemma foreign_selection_shows_no_editor_witness :
  active_nodes (CommentsList [Comment 1 1 [Comment 2 2 []]]
                  (Some (Comment 9 9 []))) = [].
Proof.
  refine (proj1 (foreign_selection_shows_no_editor
            [Comment 1 1 [Comment 2 2 []]] (Comment 9 9 []) _)).
  compute_done.
Defined.

(** ** The renderer without a selection *)

Lemma flat_forest_nodes (forest : list comment) :
  Forall (λ c, children c = []) forest → forest_nodes forest = forest.
Proof.
  unfold forest_nodes. induction 1 as [|c cs Hc _ IH]; [reflexivity|].
  rewrite bind_cons, IH, subtree_nodes_unfold, Hc. reflexivity.
Qed.

(** X6: when no root comment has replies, the unset selection renders
    exactly as if the first root were selected; with pairwise distinct
    roots the first root alone shows the inner blocks. *)
Theorem flat_forest_defaults_to_first_root (forest : list comment)
    (first : comment) :
  Forall (λ c, children c = []) forest →
  head forest = Some first →
  CommentsList forest None = CommentsList forest (Some first)
  ∧ (NoDup (ref <$> forest) →
     active_nodes (CommentsList forest None) = [first]).
Proof.
  intros Hflat Hhead.
  assert (Heq : CommentsList forest None = CommentsList forest (Some first)).
  { unfold CommentsList. rewrite Hhead. apply list_fmap_ext. intros i c Hc.
    rewrite !CommentTemplateInnerBlocks_unfold.
    rewrite Forall_forall in Hflat.
    rewrite (Hflat c) by (apply list_elem_of_lookup; exists i; exact Hc).
    reflexivity. }
  split; [exact Heq|]. intros Hnd.
  rewrite Heq, active_nodes_selected, (flat_forest_nodes forest Hflat).
  apply filter_same_ref; [exact Hnd|].
  apply head_Some in Hhead as [l ->]. left.
Qed.

Lemma flat_forest_defaults_to_first_root_witness :
  active_nodes (CommentsList [Comment 1 1 []; Comment 2 2 []] None)
  = [Comment 1 1 []].
Proof.
  refine (proj2 (flat_forest_defaults_to_first_root
            [Comment 1 1 []; Comment 2 2 []] (Comment 1 1 []) _ _) _).
  - repeat constructor.
  - reflexivity.
  - compute_done.
Defined.

Lemma with_first_elem firstComment c0 c h :
  (c, h) ∈ with_first firstComment c0
  ↔ (c = c0 ∧ h = firstComment)
    ∨ ∃ p, p ∈ subtree_nodes c0 ∧ c ∈ children p ∧ h = head (children p).
Proof.
  revert firstComment. induction c0 as [r i cs IH] using comment_nested_ind.
  intros firstComment. rewrite Forall_forall in IH.
  rewrite with_first_unfold, elem_of_cons, list_elem_of_bind. simpl. split.
  - intros [[= -> ->]|(c1 & Hin & Hc1)]; [left; auto|]. right.
    apply (IH c1 Hc1) in Hin as [[-> ->]|(p & Hp & Hc & Hh)].
    + exists (Comment r i cs). split; [apply subtree_nodes_refl|]. auto.
    + exists p. split; [|auto]. right.
      apply list_elem_of_bind. exists c1. auto.
  - intros [[-> ->]|(p & Hp & Hc & Hh)]; [left; reflexivity|]. right.
    apply elem_of_cons in Hp as [->|Hp].
    + exists c. split; [|exact Hc]. apply IH; [exact Hc|]. left. auto.
    + apply list_elem_of_bind in Hp as (c1 & Hp & Hc1).
      exists c1. split; [|exact Hc1]. apply IH; [exact Hc1|].
      right. exists p. auto.
Qed.

Lemma forest_with_first_elem forest c h :
  (c, h) ∈ forest_with_first forest
  ↔ (c ∈ forest ∧ h = head forest)
    ∨ ∃ p, p ∈ forest_nodes forest ∧ c ∈ children p ∧ h = head (children p).
Proof.
  unfold forest_with_first, forest_nodes. rewrite list_elem_of_bind. split.
  - intros (c0 & Hin & Hc0).
    apply with_first_elem in Hin as [[-> ->]|(p & Hp & Hc & Hh)];
      [left; auto|].
    right. exists p. split; [|auto]. apply list_elem_of_bind. exists c0. auto.
  - intros [[Hc ->]|(p & Hp & Hc & Hh)].
    + exists c. split; [|exact Hc]. apply with_first_elem. left. auto.
    + apply list_elem_of_bind in Hp as (c0 & Hp & Hc0).
      exists c0. split; [|exact Hc0]. apply with_first_elem.
      right. exists p. auto.
Qed.

Lemma active_nodes_elem forest activeComment c :
  c ∈ active_nodes (CommentsList forest activeComment)
  ↔ ∃ h, (c, h) ∈ forest_with_first forest
         ∧ is_same c (or_default activeComment h) = true.
Proof.
  unfold active_nodes. rewrite rendered_bodies_shown. split.
  - intros ([c' b] & -> & Hin)%list_elem_of_fmap_1.
    apply list_elem_of_filter in Hin as [Hed Hin]. simpl in *.
    apply list_elem_of_fmap_1 in Hin as ([c0 h] & Heq & Hin).
    unfold shown in Heq. simpl in Heq. injection Heq as -> ->.
    exists h. split; [exact Hin|].
    destruct (is_same c0 (or_default activeComment h));
      [reflexivity | discriminate].
  - intros (h & Hin & Hsame).
    apply (list_elem_of_fmap_2' fst _ (c, InnerBlocks)); [|reflexivity].
    apply list_elem_of_filter. split; [reflexivity|].
    apply (list_elem_of_fmap_2' _ _ (c, h)); [exact Hin|].
    unfold shown. simpl. rewrite Hsame. reflexivity.
Qed.

(** X7: with no selection, in a forest of pairwise distinct objects, the
    nodes that show the inner blocks are the first root and the first
    reply of every comment that has replies, and no other node. *)
Theorem unset_selection_active_nodes (forest : list comment) (c : comment) :
  NoDup (ref <$> forest_nodes forest) →
  c ∈ active_nodes (CommentsList forest None)
  ↔ head forest = Some c
    ∨ ∃ p, p ∈ forest_nodes forest ∧ head (children p) = Some c.
Proof.
  intros Hnd. rewrite active_nodes_elem.
  assert (Hroots : ∀ x, x ∈ forest → x ∈ forest_nodes forest).
  { intros x Hx. unfold forest_nodes. apply list_elem_of_bind.
    exists x. split; [apply subtree_nodes_refl | exact Hx]. }
  assert (Hsame : ∀ l x, (∀ y, y ∈ l → y ∈ forest_nodes forest) →
            x ∈ l → is_same x (head l) = true → head l = Some x).
  { intros l x Hl Hx Hs. destruct (head l) as [y|] eqn:Hy; [|discriminate].
    f_equal. symmetry.
    apply (same_ref_same_node (forest_nodes forest) y x Hnd).
    - apply Hl. exact (head_Some_elem_of _ _ Hy).
    - apply Hl. exact Hx.
    - apply bool_decide_eq_true in Hs. exact Hs. }
  split.
  - intros (h & Hin & Hs). simpl in Hs.
    apply forest_with_first_elem in Hin as [[Hc ->]|(p & Hp & Hc & ->)].
    + left. apply (Hsame forest c Hroots Hc Hs).
    + right. exists p. split; [exact Hp|].
      apply (Hsame (children p) c); [|exact Hc|exact Hs].
      intros y Hy. exact (forest_nodes_children forest p y Hp Hy).
  - assert (Hself : is_same c (Some c) = true)
      by (apply bool_decide_eq_true_2; reflexivity).
    intros [Hh|(p & Hp & Hh)].
    + exists (head forest). split; [|rewrite Hh; exact Hself].
      apply forest_with_first_elem. left.
      split; [exact (head_Some_elem_of _ _ Hh) | reflexivity].
    + exists (head (children p)). split; [|rewrite Hh; exact Hself].
      apply forest_with_first_elem. right. exists p.
      split; [exact Hp|]. split; [exact (head_Some_elem_of _ _ Hh) | reflexivity].
Qed.

Lemma unset_selection_active_nodes_witness :
  Comment 2 2 [] ∈ active_nodes
    (CommentsList [Comment 1 1 [Comment 2 2 []; Comment 3 3 []]] None).
Proof.
  refine (proj2 (unset_selection_active_nodes
            [Comment 1 1 [Comment 2 2 []; Comment 3 3 []]] (Comment 2 2 []) _) _).
  - compute_done.
  - right. exists (Comment 1 1 [Comment 2 2 []; Comment 3 3 []]).
    split; [vm_compute; left | reflexivity].
Defined.

(** ** Runs of activations *)

Lemma activate_snoc activeComment clicks c :
  activate activeComment (clicks ++ [c]) = Some c.
Proof. unfold activate. rewrite foldl_snoc. reflexivity. Qed.

(** X8: in a forest of pairwise distinct objects, after any run of
    activations that ends on a node of the forest, that node alone shows
    the inner blocks, whatever was selected or activated before; and no
    run of activations brings the selection back to unset. *)
Theorem last_activation_wins (forest : list comment)
    (activeComment : option comment) (clicks : list comment) (c : comment) :
  NoDup (ref <$> forest_nodes forest) →
  c ∈ forest_nodes forest →
  active_nodes (CommentsList forest (activate activeComment (clicks ++ [c])))
  = [c]
  ∧ (∀ c', c' ∈ forest_nodes forest → c' ≠ c →
       (c', Preview c')
       ∈ rendered_bodies
           (CommentsList forest (activate activeComment (clicks ++ [c]))))
  ∧ (activate activeComment clicks = None
     ↔ activeComment = None ∧ clicks = []).
Proof.
  intros Hnd Hc. rewrite activate_snoc.
  split; [rewrite active_nodes_selected; apply filter_same_ref; assumption|].
  split; [intros c' Hc' Hne; apply shows_preview_selected; assumption|].
  split.
  - destruct clicks as [|x clicks _] using rev_ind; [auto|].
    rewrite activate_snoc. discriminate.
  - intros [-> ->]. reflexivity.
Qed.

Lemma last_activation_wins_witness :
  active_nodes
    (CommentsList [Comment 1 1 [Comment 2 2 []]; Comment 3 3 []]
       (activate None [Comment 3 3 []; Comment 1 1 [Comment 2 2 []];
                       Comment 2 2 []]))
  = [Comment 2 2 []].
Proof.
  refine (proj1 (last_activation_wins
            [Comment 1 1 [Comment 2 2 []]; Comment 3 3 []] None
            [Comment 3 3 []; Comment 1 1 [Comment 2 2 []]]
            (Comment 2 2 []) _ _)).
  - compute_done.
  - vm_compute. right; left.
Defined.

(** ** The shape of the rendered tree *)

Lemma CommentsList_values comments activeComment :
  item_value <$> CommentsList comments activeComment = comments.
Proof.
  unfold CommentsList. generalize (head comments) as fc. intros fc.
  induction comments as [|c cs IHcs]; [reflexivity|].
  rewrite !fmap_cons, IHcs, CommentTemplateInnerBlocks_unfold. reflexivity.
Qed.

Lemma item_subitems_unfold activeComment firstComment c :
  item_subitems (CommentTemplateInnerBlocks activeComment firstComment c)
  = CommentTemplateInnerBlocks activeComment firstComment c
    :: (CommentsList (children c) activeComment ≫= item_subitems).
Proof.
  rewrite CommentTemplateInnerBlocks_unfold at 1. simpl.
  rewrite <- CommentTemplateInnerBlocks_unfold. f_equal.
  case_bool_decide as Hlen; [reflexivity|].
  destruct (children c); [reflexivity | simpl in Hlen; lia].
Qed.

(** Every rendered item is [CommentTemplateInnerBlocks] at a node of the
    forest, with the head of the node's list as [firstComment]. *)
Lemma item_subitems_with_first activeComment firstComment c :
  item_subitems (CommentTemplateInnerBlocks activeComment firstComment c)
  = (λ p, CommentTemplateInnerBlocks activeComment p.2 p.1)
    <$> with_first firstComment c.
Proof.
  revert firstComment. induction c as [r i cs IH] using comment_nested_ind.
  intros firstComment. rewrite item_subitems_unfold, with_first_unfold.
  rewrite fmap_cons. f_equal. simpl. unfold CommentsList.
  generalize (head cs) as fc. intros fc.
  induction IH as [|c cs Hc _ IHcs]; [reflexivity|].
  rewrite fmap_cons, !bind_cons, fmap_app, IHcs, Hc. reflexivity.
Qed.

Lemma CommentsList_subitems forest activeComment :
  CommentsList forest activeComment ≫= item_subitems
  = (λ p, CommentTemplateInnerBlocks activeComment p.2 p.1)
    <$> forest_with_first forest.
Proof.
  unfold CommentsList, forest_with_first. generalize (head forest) as fc.
  intros fc. induction forest as [|c cs IHcs]; [reflexivity|].
  rewrite fmap_cons, !bind_cons, fmap_app, IHcs, item_subitems_with_first.
  reflexivity.
Qed.

(** X9: the rendered tree has the shape of the forest.  Every item, at
    any depth, is the item of a node of the forest keyed by that node's
    [commentId]; it has a nested list exactly when the node has replies,
    and that list, never empty, holds the items of the replies in
    order. *)
Theorem rendered_tree_mirrors_forest (forest : list comment)
    (activeComment : option comment) (it : RenderedItem) :
  it ∈ CommentsList forest activeComment ≫= item_subitems →
  item_value it ∈ forest_nodes forest
  ∧ item_key it = commentId (item_value it)
  ∧ match item_nested it with
    | None => children (item_value it) = []
    | Some l => l ≠ [] ∧ item_value <$> l = children (item_value it)
    end.
Proof.
  rewrite CommentsList_subitems.
  intros ([c h] & -> & Hin)%list_elem_of_fmap_1. simpl.
  rewrite CommentTemplateInnerBlocks_unfold. simpl. split.
  - rewrite <- forest_with_first_nodes.
    apply (list_elem_of_fmap_2 fst _ _ Hin).
  - split; [reflexivity|]. case_bool_decide as Hlen.
    + rewrite CommentsList_values. split; [|reflexivity].
      unfold CommentsList. destruct (children c); [simpl in Hlen; lia|].
      discriminate.
    + destruct (children c); [reflexivity | simpl in Hlen; lia].
Qed.

Lemma rendered_tree_mirrors_forest_witness :
  item_key (Item 2 (Comment 2 2 []) InnerBlocks None) = 2.
Proof.
  refine (proj1 (proj2 (rendered_tree_mirrors_forest
            [Comment 1 1 [Comment 2 2 []]] None
            (Item 2 (Comment 2 2 []) InnerBlocks None) _))).
  vm_compute. right; left.
Defined.

(** ** CommentTemplateEdit: the cap under any perPage *)

Section CapFacts.
Variable StringToIntegerOrInfinity : string → IntegerOrInfinity.
Variable convertToTree : option (list CommentRecord) → list comment.

Local Abbreviation capped := (cappedComments StringToIntegerOrInfinity convertToTree).
Local Abbreviation edit := (CommentTemplateEdit StringToIntegerOrInfinity convertToTree).

Lemma slice_from_zero_take {A} (l : list A) (end_ : JSValue) :
  ∃ n, slice StringToIntegerOrInfinity l (JSNumber 0) end_ = take n l.
Proof.
  unfold slice. simpl. replace (0 <? 0) with false by reflexivity.
  rewrite (Z.min_l 0) by lia. simpl. rewrite drop_0. eexists; reflexivity.
Qed.

(** X10: whatever ['comments/perPage'] holds (a number of either sign, a
    string, a boolean, nothing), the comments kept for rendering are a
    prefix of the forest: roots are dropped from the end only, none is
    reordered or altered, and the root items rendered are that prefix. *)
Theorem capped_is_prefix (rawComments : option (list CommentRecord))
    (perPage : JSValue) (activeComment : option comment) :
  capped rawComments perPage `prefix_of` convertToTree rawComments
  ∧ item_value <$> output_items (edit rawComments perPage activeComment)
    `prefix_of` convertToTree rawComments.
Proof.
  assert (Hp : capped rawComments perPage `prefix_of` convertToTree rawComments).
  { unfold cappedComments.
    destruct (slice_from_zero_take (convertToTree rawComments)
                (effectivePerPage perPage)) as [n ->].
    apply prefix_take. }
  split; [exact Hp|]. rewrite edit_unfold.
  destruct rawComments as [rs|]; [|apply prefix_nil].
  case_bool_decide; simpl; [apply prefix_nil|].
  rewrite CommentsList_values. exact Hp.
Qed.

Lemma capped_negative rawComments (n : Z) :
  n < 0 →
  capped rawComments (JSNumber n)
  = take (length (convertToTree rawComments) - Z.to_nat (- n))
      (convertToTree rawComments).
Proof.
  intros Hn. unfold cappedComments, effectivePerPage, js_or. simpl.
  replace (n =? 0) with false by (symmetry; apply Z.eqb_neq; lia). simpl.
  unfold slice. simpl. replace (0 <? 0) with false by reflexivity.
  replace (n <? 0) with true by (symmetry; apply Z.ltb_lt; exact Hn).
  rewrite (Z.min_l 0) by lia. simpl. rewrite drop_0. f_equal. lia.
Qed.

(** X11: a negative perPage [-k] is not replaced by the default: it cuts
    the last [k] roots off the forest, and when the forest has at most
    [k] roots the component renders the empty result although there are
    comments. *)
Theorem negative_perPage_drops_last_roots
    (rawComments : option (list CommentRecord)) (n : Z)
    (activeComment : option comment) :
  n < 0 →
  capped rawComments (JSNumber n)
  = take (length (convertToTree rawComments) - Z.to_nat (- n))
      (convertToTree rawComments)
  ∧ (is_Some rawComments →
     Z.of_nat (length (convertToTree rawComments)) ≤ - n →
     edit rawComments (JSNumber n) activeComment = NoResults).
Proof.
  intros Hn. pose proof (capped_negative rawComments n Hn) as Hc.
  split; [exact Hc|]. intros [rs ->] Hlen. rewrite edit_unfold, Hc.
  replace (length (convertToTree (Some rs)) - Z.to_nat (- n))%nat
    with 0%nat by lia.
  reflexivity.
Qed.

(** X12: what the component renders tells its input apart: the spinner
    exactly for absent raw comments, the empty result exactly for present
    raw comments with nothing kept, and otherwise a list that is never
    empty and holds one root item per kept comment, in order. *)
Theorem output_tells_input (rawComments : option (list CommentRecord))
    (perPage : JSValue) (activeComment : option comment) :
  (edit rawComments perPage activeComment = Spinner ↔ rawComments = None)
  ∧ (edit rawComments perPage activeComment = NoResults
     ↔ is_Some rawComments ∧ capped rawComments perPage = [])
  ∧ (∀ ol, edit rawComments perPage activeComment = CommentsListOutput ol →
       is_Some rawComments ∧ ol ≠ []
       ∧ item_value <$> ol = capped rawComments perPage).
Proof.
  rewrite edit_unfold. destruct rawComments as [rs|].
  - destruct (capped (Some rs) perPage) as [|c cs] eqn:Hc; simpl.
    + split; [split; discriminate|].
      split; [split; [intros _; split; [eexists|]; reflexivity | reflexivity]|].
      intros ol; discriminate.
    + split; [split; discriminate|].
      split; [split; [discriminate | intros [_ ?]; discriminate]|].
      intros ol [= <-]. split; [eexists; reflexivity|].
      split; [discriminate|]. apply CommentsList_values.
  - split; [split; reflexivity|].
    split; [split; [discriminate | intros [[? ?] _]; discriminate]|].
    intros ol; discriminate.
Qed.

(** X13: lowering a positive perPage only cuts roots off the end of what
    was rendered before: the comments kept under the smaller limit are a
    prefix of those kept under the larger one. *)
Theorem smaller_perPage_keeps_prefix
    (rawComments : option (list CommentRecord)) (m n : Z) :
  0 < m → m ≤ n →
  capped rawComments (JSNumber m) `prefix_of` capped rawComments (JSNumber n).
Proof.
  intros Hm Hmn. rewrite !capped_positive by lia.
  replace (take (Z.to_nat m) (convertToTree rawComments))
    with (take (Z.to_nat m) (take (Z.to_nat n) (convertToTree rawComments))).
  - apply prefix_take.
  - rewrite take_take. f_equal. lia.
Qed.
End CapFacts.

Lemma negative_perPage_drops_last_roots_witness :
  CommentTemplateEdit (λ _, Finite 0) (λ _, [Comment 1 1 []; Comment 2 2 []])
    (Some []) (JSNumber (-2)) None = NoResults
  ∧ cappedComments (λ _, Finite 0)
      (λ _, [Comment 1 1 []; Comment 2 2 []]) (Some []) (JSNumber (-1))
    = [Comment 1 1 []].
Proof.
  split.
  - refine (proj2 (negative_perPage_drops_last_roots (λ _, Finite 0)
              (λ _, [Comment 1 1 []; Comment 2 2 []]) (Some []) (-2) None _) _ _).
    + lia.
    + eexists; reflexivity.
    + simpl. lia.
  - refine (proj1 (negative_perPage_drops_last_roots (λ _, Finite 0)
              (λ _, [Comment 1 1 []; Comment 2 2 []]) (Some []) (-1) None _)).
    lia.
Defined.

Lemma smaller_perPage_keeps_prefix_witness :
  cappedComments (λ _, Finite 0)
    (λ _, [Comment 1 1 []; Comment 2 2 []; Comment 3 3 []]) (Some []) (JSNumber 1)
  `prefix_of`
  cappedComments (λ _, Finite 0)
    (λ _, [Comment 1 1 []; Comment 2 2 []; Comment 3 3 []]) (Some []) (JSNumber 2).
Proof.
  apply (smaller_perPage_keeps_prefix (λ _, Finite 0)
           (λ _, [Comment 1 1 []; Comment 2 2 []; Comment 3 3 []]) (Some []) 1 2);
    lia.
Defined.

(** X14: once the raw comments are there, the nodes rendered are the
    kept roots with all their descendants, each once and in document
    order: the cap never cuts inside a thread.  With a falsy perPage and
    at most 50 roots that is the whole forest. *)
Theorem kept_roots_render_whole_threads (S2I : string → IntegerOrInfinity)
    (convertToTree : option (list CommentRecord) → list comment)
    (rawComments : option (list CommentRecord)) (perPage : JSValue)
    (activeComment : option comment) :
  is_Some rawComments →
  (rendered_bodies
     (output_items
        (CommentTemplateEdit S2I convertToTree rawComments perPage activeComment))).*1
  = forest_nodes (cappedComments S2I convertToTree rawComments perPage)
  ∧ (truthy perPage = false →
     (length (convertToTree rawComments) ≤ 50)%nat →
     (rendered_bodies
        (output_items
           (CommentTemplateEdit S2I convertToTree rawComments perPage
              activeComment))).*1
     = forest_nodes (convertToTree rawComments)).
Proof.
  intros [rs ->].
  assert (Hall : (rendered_bodies
            (output_items
               (CommentTemplateEdit S2I convertToTree (Some rs) perPage
                  activeComment))).*1
          = forest_nodes (cappedComments S2I convertToTree (Some rs) perPage)).
  { rewrite edit_unfold. case_bool_decide as Hlen; simpl.
    - destruct (cappedComments S2I convertToTree (Some rs) perPage);
        [reflexivity | discriminate].
    - apply rendered_nodes. }
  split; [exact Hall|]. intros Hf Hlen.
  rewrite Hall, (capped_falsy S2I convertToTree (Some rs) perPage Hf).
  rewrite take_ge by exact Hlen. reflexivity.
Qed.

Lemma kept_roots_render_whole_threads_witness :
  (rendered_bodies
     (output_items
        (CommentTemplateEdit (λ _, Finite 0)
           (λ _, [Comment 1 1 [Comment 2 2 []]; Comment 3 3 []])
           (Some []) (JSNumber 1) None))).*1
  = [Comment 1 1 [Comment 2 2 []]; Comment 2 2 []].
Proof.
  refine (proj1 (kept_roots_render_whole_threads (λ _, Finite 0)
            (λ _, [Comment 1 1 [Comment 2 2 []]; Comment 3 3 []])
            (Some []) (JSNumber 1) None _)).
  eexists; reflexivity.
Defined.

Lemma success_has_record_witness :
  is_Some (res_record (useEntityRecord
             {| data := Some tt; isResolving := false; hasResolved := true |}
             None None)).
Proof.
  refine (proj1 (proj2 (success_has_record
            {| data := Some tt; isResolving := false; hasResolved := true |}
            None None) _)).
  reflexivity.
Defined.

Lemma output_tells_input_witness :
  item_value <$> CommentsList [Comment 1 1 []] None = [Comment 1 1 []].
Proof.
  refine (proj2 (proj2 (proj2 (proj2 (output_tells_input (λ _, Finite 0)
            (λ _, [Comment 1 1 []]) (Some []) JSUndefined None))
            (CommentsList [Comment 1 1 []] None) _))).
  reflexivity.
Defined.
